(** * elastic: run-time conversion of Go values

    A shallow embedding of [convert.go] (package [elastic]) together with the
    parts of Go's [strconv] and [reflect] packages that [Convert] and [Set]
    call, followed by the properties of the conversion engine.

    Layout: machine integers, [strconv], [reflect], the engine itself
    ([ConverterEngine], [Convert], [Set]), the fixtures of [convert_test.go],
    and then the lemmas and theorems. *)

From Stdlib Require Import ZArith List String Ascii Bool Lia.
From Corelib Require Import SpecFloat.
Import ListNotations.

Local Open Scope string_scope.
Local Open Scope list_scope.
Local Open Scope Z_scope.

Set Warnings "-register-all".

(** ** Machine integers *)

(** [uintN w z]: [z] truncated to an unsigned [w]-bit integer. *)
Definition uintN (w z : Z) : Z := z mod 2 ^ w.

(** [intN w z]: [z] truncated to [w] bits and read as two's complement. *)
Definition intN (w z : Z) : Z := (z + 2 ^ (w - 1)) mod 2 ^ w - 2 ^ (w - 1).

Definition in_uintN (w z : Z) : Prop := 0 <= z < 2 ^ w.
Definition in_intN (w z : Z) : Prop := - 2 ^ (w - 1) <= z < 2 ^ (w - 1).

(** ** Binary floating point (IEEE 754), on [spec_float] *)

Module float.

Definition prec64 : Z := 53.
Definition emax64 : Z := 1024.
Definition prec32 : Z := 24.
Definition emax32 : Z := 128.

(** Precision and exponent bound for a 32 or 64 bit format. *)
Definition prec (bitSize : Z) : Z := if bitSize =? 32 then prec32 else prec64.
Definition emax (bitSize : Z) : Z := if bitSize =? 32 then emax32 else emax64.

(** The float nearest to the integer [z] (ties to even). *)
Definition of_Z (bitSize : Z) (z : Z) : spec_float :=
  binary_normalize (prec bitSize) (emax bitSize) z 0 false.

(** The float nearest to the rational [n / d], [d > 0] (ties to even). *)
Definition of_ratio (bitSize : Z) (neg : bool) (n d : positive) : spec_float :=
  let '(mz, ez, lz) :=
    SFdiv_core_binary (prec bitSize) (emax bitSize) (Zpos n) 0 (Zpos d) 0 in
  binary_round_aux (prec bitSize) (emax bitSize) neg mz ez lz.

(** Rounding of a float to the format of [bitSize] bits: Go's [float32(x)]
    for [bitSize = 32], the identity on binary64 values for [bitSize = 64]. *)
Definition round (bitSize : Z) (f : spec_float) : spec_float :=
  match f with
  | S754_finite s m e =>
      binary_normalize (prec bitSize) (emax bitSize) (cond_Zopp s (Zpos m)) e s
  | _ => f
  end.

(** Truncation toward zero of a finite float; [None] for NaN and infinities. *)
Definition trunc (f : spec_float) : option Z :=
  match f with
  | S754_zero _ => Some 0
  | S754_finite s m e =>
      let a := match e with
               | Zneg p => Zpos m / 2 ^ Zpos p
               | _ => Zpos m * 2 ^ e
               end in
      Some (cond_Zopp s a)
  | _ => None
  end.

(** Go's [int64(f)].  The language leaves the result unspecified when the
    truncated value does not fit; the model returns what amd64 returns, the
    "integer indefinite" value [-2^63]. *)
Definition to_int64 (f : spec_float) : Z :=
  match trunc f with
  | Some z => if (- 2 ^ 63 <=? z) && (z <? 2 ^ 63) then z else - 2 ^ 63
  | None => - 2 ^ 63
  end.

(** Go's [uint64(f)], with the amd64 results outside [0, 2^64). *)
Definition to_uint64 (f : spec_float) : Z :=
  match trunc f with
  | Some z =>
      if (0 <=? z) && (z <? 2 ^ 64) then z
      else if (- 2 ^ 63 <=? z) && (z <? 0) then uintN 64 z
      else 2 ^ 63
  | None => 2 ^ 63
  end.

Definition sub64 : spec_float -> spec_float -> spec_float := SFsub prec64 emax64.
Definition add64 : spec_float -> spec_float -> spec_float := SFadd prec64 emax64.
Definition sqrt64 : spec_float -> spec_float := SFsqrt prec64 emax64.

(** Go's [x > y] on floats. *)
Definition gtb (x y : spec_float) : bool := SFltb y x.

(** Go's [x == y] on floats: false on NaN, true on zeros of either sign. *)
Definition eqb (x y : spec_float) : bool := SFeqb x y.

(** Two floats compare equal: both zero, or the same infinity, or the same
    finite number. *)
Definition same (x y : spec_float) : Prop :=
  match x, y with
  | S754_zero _, S754_zero _ => True
  | S754_infinity s, S754_infinity s' => s = s'
  | S754_finite s m e, S754_finite s' m' e' => s = s' /\ m = m' /\ e = e'
  | _, _ => False
  end.

End float.

(** ** Package [strconv]

    The functions [Convert] calls, written after their documented behaviour
    (base 10 only, as [Convert] passes it). *)

Module strconv.

Local Open Scope string_scope.
Local Open Scope Z_scope.

(** The [Err] field of a [*strconv.NumError]. *)
Inductive numerr := ErrSyntax | ErrRange.

(** [*strconv.NumError{Func, Num, Err}] *)
Record NumError := mkNumError { Func : string; Num : string; Err : numerr }.

Definition syntaxError (fn str : string) : NumError := mkNumError fn str ErrSyntax.
Definition rangeError (fn str : string) : NumError := mkNumError fn str ErrRange.

(** The platform's [int] size, [strconv.IntSize]; the tests of the
    repository assume a 64-bit platform ([uint(0xffffffffffffffff)]). *)
Definition IntSize : Z := 64.

Definition digit_char (d : Z) : ascii := ascii_of_N (Z.to_N (48 + d)).

Definition digit_val (c : ascii) : option Z :=
  let n := Z.of_N (N_of_ascii c) in
  if (48 <=? n) && (n <=? 57) then Some (n - 48) else None.

(** [formatBits] for base 10: the digits are produced from the least
    significant one, [for u >= 10 { ...; u /= 10 }].  [fuel] bounds the number
    of digits. *)
Fixpoint formatBits_loop (fuel : nat) (u : Z) (a : string) : string :=
  match fuel with
  | O => a
  | S fuel' =>
      if 10 <=? u
      then formatBits_loop fuel' (u / 10) (String (digit_char (u mod 10)) a)
      else String (digit_char u) a
  end.

Definition formatBits (u : Z) : string :=
  formatBits_loop (S (Z.to_nat (Z.log2 u))) u "".

(** [strconv.FormatUint(u, 10)] *)
Definition FormatUint (u : Z) : string := formatBits u.

(** [strconv.FormatInt(i, 10)] *)
Definition FormatInt (i : Z) : string :=
  if i <? 0 then String "-" (formatBits (- i)) else formatBits i.

(** [strconv.FormatBool] *)
Definition FormatBool (b : bool) : string := if b then "true" else "false".

(** [strconv.ParseBool] *)
Definition ParseBool (str : string) : bool + NumError :=
  if existsb (String.eqb str) ["1"; "t"; "T"; "TRUE"; "true"; "True"]%string
  then inl true
  else if existsb (String.eqb str) ["0"; "f"; "F"; "FALSE"; "false"; "False"]%string
  then inl false
  else inr (syntaxError "ParseBool" str).

Definition maxUint64 : Z := 2 ^ 64 - 1.

(** The digit loop of [ParseUint] for base 10: [n] is the value read so far,
    [maxVal = 2^bitSize - 1]. *)
Fixpoint parseUint_loop (s : string) (n maxVal : Z) : Z + numerr :=
  match s with
  | EmptyString => inl n
  | String c rest =>
      match digit_val c with
      | None => inr ErrSyntax
      | Some d =>
          if maxUint64 / 10 + 1 <=? n then inr ErrRange      (* n*base overflows *)
          else
            let n10 := n * 10 in
            let n1 := uintN 64 (n10 + d) in
            if (n1 <? n10) || (maxVal <? n1) then inr ErrRange  (* n+d overflows *)
            else parseUint_loop rest n1 maxVal
      end
  end.

Definition bitSize_or_IntSize (bitSize : Z) : Z :=
  if bitSize =? 0 then IntSize else bitSize.

(** The value or the kind of failure of [ParseUint(s, 10, bitSize)]. *)
Definition parseUint (s : string) (bitSize : Z) : Z + numerr :=
  match s with
  | EmptyString => inr ErrSyntax
  | _ => parseUint_loop s 0 (2 ^ bitSize_or_IntSize bitSize - 1)
  end.

(** [strconv.ParseUint(s, 10, bitSize)] *)
Definition ParseUint (s : string) (bitSize : Z) : Z + NumError :=
  match parseUint s bitSize with
  | inl n => inl n
  | inr e => inr (mkNumError "ParseUint" s e)
  end.

(** [strconv.ParseInt(s, 10, bitSize)]: an optional sign, then [ParseUint] on
    the rest; a range failure of the unsigned parse is a range failure here,
    and the magnitude is checked against [cutoff = 2^(bitSize-1)]. *)
Definition ParseInt (s0 : string) (bitSize : Z) : Z + NumError :=
  match s0 with
  | EmptyString => inr (syntaxError "ParseInt" s0)
  | String c rest =>
      let '(neg, s) :=
        if Ascii.eqb c "+" then (false, rest)
        else if Ascii.eqb c "-" then (true, rest)
        else (false, s0) in
      match parseUint s bitSize with
      | inr ErrSyntax => inr (syntaxError "ParseInt" s0)
      | inr ErrRange => inr (rangeError "ParseInt" s0)
      | inl un =>
          let cutoff := 2 ^ (bitSize_or_IntSize bitSize - 1) in
          if negb neg && (cutoff <=? un) then inr (rangeError "ParseInt" s0)
          else if neg && (cutoff <? un) then inr (rangeError "ParseInt" s0)
          else inl (if neg then - un else un)
      end
  end.

(** *** Floating point: [FormatFloat(f, 'g', prec, bitSize)] and [ParseFloat]

    [decimal] is strconv's digit buffer: the significant digits [d] (no
    trailing zeros) and the position [dp] of the decimal point, so that the
    value is [0.d * 10^dp]. *)

Record decimal := mkDecimal { d : string; dp : Z }.

Definition nd (a : decimal) : Z := Z.of_nat (String.length (d a)).

Definition ndigits (n : Z) : Z := Z.of_nat (String.length (formatBits n)).

(** [num / den] divided by [10^k], as a fraction. *)
Definition scale10 (num den k : Z) : Z * Z :=
  if 0 <=? k then (num, den * 10 ^ k) else (num * 10 ^ (- k), den).

(** [floor (log10 (num / den))] for positive [num], [den]. *)
Definition log10_floor (num den : Z) : Z :=
  let k := ndigits num - ndigits den in
  let '(n, m) := scale10 num den k in
  if m <=? n then k else k - 1.

Fixpoint trim_zeros (fuel : nat) (n : Z) : Z :=
  match fuel with
  | O => n
  | S fuel' => if (n mod 10 =? 0) && negb (n =? 0) then trim_zeros fuel' (n / 10) else n
  end.

(** The first [prec] significant decimal digits of [num / den], the last one
    rounded to nearest, ties to even. *)
Definition round_digits (num den prec : Z) : decimal :=
  let x := log10_floor num den in
  let '(n, m) := scale10 num den (x - prec + 1) in
  let q := n / m in
  let r := n mod m in
  let q' := match 2 * r ?= m with
            | Lt => q
            | Eq => if Z.even q then q else q + 1
            | Gt => q + 1
            end in
  let '(q'', x') := if q' =? 10 ^ prec then (10 ^ (prec - 1), x + 1) else (q', x) in
  mkDecimal (formatBits (trim_zeros (Z.to_nat prec) q'')) (x' + 1).

Definition float_digits (f : spec_float) (prec : Z) : decimal :=
  match f with
  | S754_finite _ m e =>
      match e with
      | Zneg p => round_digits (Zpos m) (2 ^ Zpos p) prec
      | _ => round_digits (Zpos m * 2 ^ e) 1 prec
      end
  | _ => mkDecimal "" 0
  end.

Fixpoint zeros (n : nat) : string :=
  match n with O => "" | S n' => String "0" (zeros n') end.

Definition sign_prefix (neg : bool) (s : string) : string :=
  if neg then String "-" s else s.

(** [%e]: [d.ddddde±dd] with [prec] digits after the point. *)
Definition fmtE (neg : bool) (a : decimal) (prec : Z) : string :=
  let first := match d a with EmptyString => "0" | String c _ => String c "" end in
  let frac :=
    if 0 <? prec then
      let m := Z.min (nd a) (prec + 1) in
      let taken := if 1 <? m then substring 1 (Z.to_nat (m - 1)) (d a) else "" in
      let used := Z.max m 1 in
      String "." (taken ++ zeros (Z.to_nat (prec + 1 - used)))
    else "" in
  let exp := if nd a =? 0 then 0 else dp a - 1 in
  let esign := if exp <? 0 then "-" else "+" in
  let eabs := Z.abs exp in
  let edigits := if eabs <? 10 then String "0" (formatBits eabs) else formatBits eabs in
  sign_prefix neg (first ++ frac ++ "e" ++ esign ++ edigits).

(** [%f]: the integer part, then [prec] digits after the point. *)
Definition fmtF (neg : bool) (a : decimal) (prec : Z) : string :=
  let int :=
    if 0 <? dp a then
      let m := Z.min (nd a) (dp a) in
      substring 0 (Z.to_nat m) (d a) ++ zeros (Z.to_nat (dp a - m))
    else "0" in
  let frac :=
    if 0 <? prec then
      let lead := Z.min prec (Z.max (- dp a) 0) in
      let start := Z.max (dp a) 0 in
      let avail := Z.max (Z.min (nd a - start) (prec - lead)) 0 in
      String "." (zeros (Z.to_nat lead)
                  ++ substring (Z.to_nat start) (Z.to_nat avail) (d a)
                  ++ zeros (Z.to_nat (prec - lead - avail)))
    else "" in
  sign_prefix neg (int ++ frac).

(** [%g] chooses [%e] when the exponent is below [-4] or not below the
    precision, [%f] otherwise; trailing zeros are not printed. *)
Definition fmtG (neg : bool) (a : decimal) (prec : Z) : string :=
  let eprec := if (nd a <? prec) && (dp a <=? nd a) then nd a else prec in
  let exp := dp a - 1 in
  if (exp <? -4) || (eprec <=? exp)
  then fmtE neg a (Z.min prec (nd a) - 1)
  else fmtF neg a (Z.max ((if dp a <? prec then nd a else prec) - dp a) 0).

Definition float_sign (f : spec_float) : bool :=
  match f with
  | S754_zero s | S754_infinity s | S754_finite s _ _ => s
  | S754_nan => false
  end.

(** [strconv.FormatFloat(val, 'g', prec, bitSize)] for [prec >= 0]. *)
Definition FormatFloat_g (val : spec_float) (prec bitSize : Z) : string :=
  let f := float.round bitSize val in
  match f with
  | S754_nan => "NaN"
  | S754_infinity s => if s then "-Inf" else "+Inf"
  | _ =>
      let prec := if prec =? 0 then 1 else prec in
      fmtG (float_sign f) (float_digits f prec) prec
  end.

(** ASCII lower case, [lower(c)]. *)
Definition lower (c : ascii) : ascii :=
  let n := N_of_ascii c in
  if (65 <=? n)%N && (n <=? 90)%N then ascii_of_N (n + 32) else c.

Fixpoint lower_string (s : string) : string :=
  match s with
  | EmptyString => EmptyString
  | String c rest => String (lower c) (lower_string rest)
  end.

(** The longest prefix of decimal digits, and the rest. *)
Fixpoint span_digits (s : string) : string * string :=
  match s with
  | EmptyString => ("", "")
  | String c rest =>
      match digit_val c with
      | Some _ => let '(ds, r) := span_digits rest in (String c ds, r)
      | None => ("", s)
      end
  end.

(** The number a string of digits denotes, read from the left. *)
Fixpoint digits_value (s : string) (acc : Z) : Z :=
  match s with
  | EmptyString => acc
  | String c rest =>
      match digit_val c with
      | Some k => digits_value rest (acc * 10 + k)
      | None => acc
      end
  end.

(** The exponent digits: [if e < 10000 { e = e*10 + digit }]. *)
Fixpoint exponent_value (s : string) (e : Z) : Z :=
  match s with
  | EmptyString => e
  | String c rest =>
      match digit_val c with
      | Some k => exponent_value rest (if e <? 10000 then e * 10 + k else e)
      | None => e
      end
  end.

Definition split_sign (s : string) : bool * string :=
  match s with
  | String c rest =>
      if Ascii.eqb c "+" then (false, rest)
      else if Ascii.eqb c "-" then (true, rest)
      else (false, s)
  | EmptyString => (false, s)
  end.

(** [special]: "inf" and "infinity" with an optional sign, "nan" without
    one, in any letter case. *)
Definition special (s : string) : option spec_float :=
  let '(neg, body) := split_sign s in
  let l := lower_string body in
  if String.eqb l "inf" || String.eqb l "infinity" then Some (S754_infinity neg)
  else if String.eqb (lower_string s) "nan" then Some S754_nan
  else None.

(** [readFloat] for decimal input: sign, digits with at most one point, an
    optional exponent; the whole string must be consumed.  The result is the
    sign, the mantissa as an integer and the power of ten.  (Hexadecimal
    mantissas and underscores between digits, which Go also reads, are left
    out: they are syntax errors here.) *)
Definition readFloat (s : string) : option (bool * Z * Z) :=
  let '(neg, s1) := split_sign s in
  let '(ip, s2) := span_digits s1 in
  let '(fp, s3) :=
    match s2 with
    | String "." r => span_digits r
    | _ => ("", s2)
    end in
  if String.eqb (ip ++ fp) "" then None
  else
    let mant := digits_value (ip ++ fp) 0 in
    let dpt := - Z.of_nat (String.length fp) in
    match s3 with
    | EmptyString => Some (neg, mant, dpt)
    | String c r =>
        if Ascii.eqb (lower c) "e" then
          let '(eneg, r1) := split_sign r in
          let '(ed, r2) := span_digits r1 in
          if String.eqb ed "" then None
          else if negb (String.eqb r2 "") then None
          else
            let e := exponent_value ed 0 in
            Some (neg, mant, dpt + (if eneg then - e else e))
        else None
    end.

Definition is_infinity (f : spec_float) : bool :=
  match f with S754_infinity _ => true | _ => false end.

(** [strconv.ParseFloat(s, bitSize)]: the float of [bitSize] bits nearest to
    the decimal number [s] denotes; a value that rounds to an infinity is a
    range error. *)
Definition ParseFloat (s : string) (bitSize : Z) : spec_float + NumError :=
  match special s with
  | Some f => inl f
  | None =>
      match readFloat s with
      | None => inr (syntaxError "ParseFloat" s)
      | Some (neg, mant, e10) =>
          let f :=
            match mant with
            | Zpos m =>
                match e10 with
                | Zneg p => float.of_ratio bitSize neg m (10 ^ p)%positive
                | _ => float.of_ratio bitSize neg (m * Z.to_pos (10 ^ e10))%positive 1
                end
            | _ => S754_zero neg
            end in
          if is_infinity f then inr (rangeError "ParseFloat" s) else inl f
      end
  end.

End strconv.

(** ** Package [unicode/utf8]

    Go strings are byte sequences; converting between strings and runes
    encodes and decodes UTF-8. *)

Module utf8.

Definition RuneError : Z := 65533.   (* U+FFFD *)

Definition byte_of (c : ascii) : Z := Z.of_N (N_of_ascii c).
Definition char_of (b : Z) : ascii := ascii_of_N (Z.to_N b).

Definition string_of_bytes (bs : list Z) : string :=
  fold_right (fun b s => String (char_of b) s) "" bs.

Definition bytes_of_string (s : string) : list Z :=
  map byte_of (list_ascii_of_string s).

(** [utf8.AppendRune]: surrogates and values outside Unicode are encoded as
    [RuneError]. *)
Definition encode_valid (r : Z) : list Z :=
  if r <=? 127 then [r]
  else if r <=? 2047 then [192 + r / 64; 128 + r mod 64]
  else if r <=? 65535 then [224 + r / 4096; 128 + (r / 64) mod 64; 128 + r mod 64]
  else [240 + r / 262144; 128 + (r / 4096) mod 64; 128 + (r / 64) mod 64; 128 + r mod 64].

Definition valid_rune (r : Z) : bool :=
  (0 <=? r) && (r <=? 1114111) && negb ((55296 <=? r) && (r <=? 57343)).

Definition EncodeRune (r : Z) : list Z :=
  encode_valid (if valid_rune r then r else RuneError).

Definition cont (b : Z) : bool := (128 <=? b) && (b <=? 191).

(** The accepted range of the second byte, by first byte. *)
Definition second_ok (b0 b1 : Z) : bool :=
  if b0 =? 224 then (160 <=? b1) && (b1 <=? 191)
  else if b0 =? 237 then (128 <=? b1) && (b1 <=? 159)
  else if b0 =? 240 then (144 <=? b1) && (b1 <=? 191)
  else if b0 =? 244 then (128 <=? b1) && (b1 <=? 143)
  else cont b1.

(** [[]rune(s)]: each ill-formed byte decodes to [RuneError] on its own. *)
Fixpoint DecodeString (s : list Z) : list Z :=
  match s with
  | [] => []
  | b0 :: t0 =>
      if b0 <? 128 then b0 :: DecodeString t0
      else if (194 <=? b0) && (b0 <=? 223) then
        match t0 with
        | b1 :: t1 =>
            if cont b1 then ((b0 - 192) * 64 + (b1 - 128)) :: DecodeString t1
            else RuneError :: DecodeString t0
        | _ => RuneError :: DecodeString t0
        end
      else if (224 <=? b0) && (b0 <=? 239) then
        match t0 with
        | b1 :: (b2 :: t2) as t1 =>
            if second_ok b0 b1 && cont b2
            then ((b0 - 224) * 4096 + (b1 - 128) * 64 + (b2 - 128)) :: DecodeString t2
            else RuneError :: DecodeString t0
        | _ => RuneError :: DecodeString t0
        end
      else if (240 <=? b0) && (b0 <=? 244) then
        match t0 with
        | b1 :: (b2 :: (b3 :: t3)) =>
            if second_ok b0 b1 && cont b2 && cont b3
            then ((b0 - 240) * 262144 + (b1 - 128) * 4096 + (b2 - 128) * 64 + (b3 - 128))
                 :: DecodeString t3
            else RuneError :: DecodeString t0
        | _ => RuneError :: DecodeString t0
        end
      else RuneError :: DecodeString t0
  end.

End utf8.

(** ** Package [reflect]: types

    The model covers the kinds the engine has rules for and the tests and
    examples use: booleans, the sized integers, floats, strings, slices,
    maps, structs, pointers and interfaces.  Complex numbers, arrays,
    channels, functions and unsafe pointers are outside it. *)

Module reflect.

Inductive Kind :=
| Invalid
| Bool
| Int | Int8 | Int16 | Int32 | Int64
| Uint | Uint8 | Uint16 | Uint32 | Uint64 | Uintptr
| Float32 | Float64
| Interface | Map | Ptr | Slice | String | Struct.

(** The predeclared types. *)
Inductive basic :=
| Tbool
| Tint | Tint8 | Tint16 | Tint32 | Tint64
| Tuint | Tuint8 | Tuint16 | Tuint32 | Tuint64 | Tuintptr
| Tfloat32 | Tfloat64
| Tstring.

(** A type descriptor, [reflect.Type].  Two descriptors are the same type
    exactly when they are equal: a defined type ([type Name underlying]) is
    identified by its name, every other type by its structure.  An interface
    type is given by the names of its methods. *)
Inductive rtype :=
| Basic (b : basic)
| Named (name : string) (underlying : rtype)
| SliceOf (elem : rtype)
| MapOf (key elem : rtype)
| PtrTo (elem : rtype)
| StructOf (fields : list (string * rtype))
| InterfaceOf (methods : list string).

Definition basic_kind (b : basic) : Kind :=
  match b with
  | Tbool => Bool
  | Tint => Int | Tint8 => Int8 | Tint16 => Int16 | Tint32 => Int32 | Tint64 => Int64
  | Tuint => Uint | Tuint8 => Uint8 | Tuint16 => Uint16 | Tuint32 => Uint32
  | Tuint64 => Uint64 | Tuintptr => Uintptr
  | Tfloat32 => Float32 | Tfloat64 => Float64
  | Tstring => String
  end.

Definition basic_eqb (a b : basic) : bool :=
  match a, b with
  | Tbool, Tbool | Tint, Tint | Tint8, Tint8 | Tint16, Tint16 | Tint32, Tint32
  | Tint64, Tint64 | Tuint, Tuint | Tuint8, Tuint8 | Tuint16, Tuint16
  | Tuint32, Tuint32 | Tuint64, Tuint64 | Tuintptr, Tuintptr
  | Tfloat32, Tfloat32 | Tfloat64, Tfloat64 | Tstring, Tstring => true
  | _, _ => false
  end.

Fixpoint strings_eqb (a b : list string) : bool :=
  match a, b with
  | [], [] => true
  | x :: a', y :: b' => String.eqb x y && strings_eqb a' b'
  | _, _ => false
  end.

(** [t1 == t2] on type descriptors. *)
Fixpoint rtype_eqb (a b : rtype) : bool :=
  match a, b with
  | Basic x, Basic y => basic_eqb x y
  | Named n u, Named n' u' => String.eqb n n' && rtype_eqb u u'
  | SliceOf e, SliceOf e' => rtype_eqb e e'
  | MapOf k e, MapOf k' e' => rtype_eqb k k' && rtype_eqb e e'
  | PtrTo e, PtrTo e' => rtype_eqb e e'
  | StructOf fs, StructOf fs' =>
      (fix fields_eqb (l l' : list (string * rtype)) {struct l} : bool :=
         match l, l' with
         | [], [] => true
         | (n, t) :: r, (n', t') :: r' =>
             String.eqb n n' && rtype_eqb t t' && fields_eqb r r'
         | _, _ => false
         end) fs fs'
  | InterfaceOf ms, InterfaceOf ms' => strings_eqb ms ms'
  | _, _ => false
  end.

(** [reflect.TypeOf] yields a nil [Type] for a nil interface value, so the
    type of a source is an [option rtype]. *)
Definition type_eqb (a b : option rtype) : bool :=
  match a, b with
  | Some x, Some y => rtype_eqb x y
  | None, None => true
  | _, _ => false
  end.

(** The underlying type: a defined type stripped of its names. *)
Fixpoint underlying (t : rtype) : rtype :=
  match t with
  | Named _ u => underlying u
  | _ => t
  end.

(** [t.Kind()] *)
Definition KindOf (t : rtype) : Kind :=
  match underlying t with
  | Basic b => basic_kind b
  | Named _ _ => Invalid
  | SliceOf _ => Slice
  | MapOf _ _ => Map
  | PtrTo _ => Ptr
  | StructOf _ => Struct
  | InterfaceOf _ => Interface
  end.

(** [t.Elem()], for slices, maps and pointers (Go panics on other kinds). *)
Definition Elem (t : rtype) : option rtype :=
  match underlying t with
  | SliceOf e | MapOf _ e | PtrTo e => Some e
  | _ => None
  end.

(** [t.Key()], for maps. *)
Definition Key (t : rtype) : option rtype :=
  match underlying t with
  | MapOf k _ => Some k
  | _ => None
  end.

(** [int(t.Size()) * 8] for the numeric kinds, on a 64-bit platform. *)
Definition SizeBits (k : Kind) : Z :=
  match k with
  | Bool | Int8 | Uint8 => 8
  | Int16 | Uint16 => 16
  | Int32 | Uint32 | Float32 => 32
  | Int | Int64 | Uint | Uint64 | Uintptr | Float64 => 64
  | _ => 0
  end.

Definition is_int (k : Kind) : bool :=
  match k with Int | Int8 | Int16 | Int32 | Int64 => true | _ => false end.

Definition is_uint (k : Kind) : bool :=
  match k with
  | Uint | Uint8 | Uint16 | Uint32 | Uint64 | Uintptr => true
  | _ => false
  end.

Definition is_float (k : Kind) : bool :=
  match k with Float32 | Float64 => true | _ => false end.

(** A type with a name: predeclared or defined ([t.Name() != ""]). *)
Definition HasName (t : rtype) : bool :=
  match t with Basic _ | Named _ _ => true | _ => false end.

(** The predeclared types carry no package path; [pkgPathFor(t) == ""] also
    holds of type literals. *)
Definition no_pkgPath (t : rtype) : bool :=
  match t with Named _ _ => false | _ => true end.

Definition Kind_eqb (a b : Kind) : bool :=
  match a, b with
  | Invalid, Invalid | Bool, Bool
  | Int, Int | Int8, Int8 | Int16, Int16 | Int32, Int32 | Int64, Int64
  | Uint, Uint | Uint8, Uint8 | Uint16, Uint16 | Uint32, Uint32 | Uint64, Uint64
  | Uintptr, Uintptr | Float32, Float32 | Float64, Float64
  | Interface, Interface | Map, Map | Ptr, Ptr | Slice, Slice
  | String, String | Struct, Struct => true
  | _, _ => false
  end.

(** [haveIdenticalUnderlyingType(T, V, false)]: the same type, or the same
    kind with identical structure underneath; two distinct interface types
    count only when both are empty. *)
Definition haveIdenticalUnderlyingType (T V : rtype) : bool :=
  rtype_eqb T V
  || (Kind_eqb (KindOf T) (KindOf V)
      && match underlying T, underlying V with
         | InterfaceOf ms, InterfaceOf ms' =>
             match ms, ms' with [], [] => true | _, _ => false end
         | a, b => rtype_eqb a b
         end).

(** ** Package [reflect]: values

    A [value] is what an [interface{}] holds: nil, or data tagged with its
    dynamic type.  The elements of slices, maps and structs are values in
    the same sense (what [.Interface()] returns for them); a pointer is nil
    or the address of a variable. *)

Definition loc := nat.

Inductive value :=
| Nil
| VBool (t : rtype) (b : bool)
| VInt (t : rtype) (i : Z)
| VUint (t : rtype) (u : Z)
| VFloat (t : rtype) (f : spec_float)
| VString (t : rtype) (s : string)
| VSlice (t : rtype) (elems : list value)
| VMap (t : rtype) (entries : list (value * value))
| VStruct (t : rtype) (fields : list value)
| VPtr (t : rtype) (p : option loc).

(** [reflect.TypeOf(v)]: [None] is the nil [Type]. *)
Definition TypeOf (v : value) : option rtype :=
  match v with
  | Nil => None
  | VBool t _ | VInt t _ | VUint t _ | VFloat t _ | VString t _
  | VSlice t _ | VMap t _ | VStruct t _ | VPtr t _ => Some t
  end.

(** The same data under another type of identical underlying type. *)
Definition retag (v : value) (t : rtype) : value :=
  match v with
  | Nil => Nil
  | VBool _ b => VBool t b
  | VInt _ i => VInt t i
  | VUint _ u => VUint t u
  | VFloat _ f => VFloat t f
  | VString _ s => VString t s
  | VSlice _ l => VSlice t l
  | VMap _ m => VMap t m
  | VStruct _ fs => VStruct t fs
  | VPtr _ p => VPtr t p
  end.

(** [makeInt(f, bits, t)]: the low [t.Size()] bytes of [bits]. *)
Definition makeInt (bits : Z) (t : rtype) : value :=
  let k := KindOf t in
  if is_int k then VInt t (intN (SizeBits k) bits) else VUint t (uintN (SizeBits k) bits).

(** [makeFloat(f, v, t)]: [float32(v)] for a 4-byte type. *)
Definition makeFloat (v : spec_float) (t : rtype) : value :=
  match KindOf t with
  | Float32 => VFloat t (float.round 32 v)
  | _ => VFloat t v
  end.

(** The conversion functions [convertOp] chooses from. *)
Inductive cvt :=
| cvtInt | cvtUint | cvtIntFloat | cvtUintFloat
| cvtFloatInt | cvtFloatUint | cvtFloat
| cvtIntString | cvtUintString
| cvtStringBytes | cvtStringRunes | cvtBytesString | cvtRunesString
| cvtDirect | cvtT2I.

Definition rune_string (x : Z) : string :=
  utf8.string_of_bytes
    (utf8.EncodeRune (if intN 32 x =? x then x else utf8.RuneError)).

Fixpoint uints_of (l : list value) : option (list Z) :=
  match l with
  | [] => Some []
  | VUint _ u :: r => option_map (cons u) (uints_of r)
  | _ => None
  end.

Fixpoint ints_of (l : list value) : option (list Z) :=
  match l with
  | [] => Some []
  | VInt _ i :: r => option_map (cons i) (ints_of r)
  | _ => None
  end.

(** What each conversion function returns, read back with [.Interface()];
    [None] where reflect would panic because the data is not of the kind the
    function reads. *)
Definition apply_cvt (op : cvt) (v : value) (t : rtype) : option value :=
  match op, v with
  | cvtInt, VInt _ i => Some (makeInt (uintN 64 i) t)
  | cvtUint, VUint _ u => Some (makeInt u t)
  | cvtIntFloat, VInt _ i => Some (makeFloat (float.of_Z 64 i) t)
  | cvtUintFloat, VUint _ u => Some (makeFloat (float.of_Z 64 u) t)
  | cvtFloatInt, VFloat _ f => Some (makeInt (uintN 64 (float.to_int64 f)) t)
  | cvtFloatUint, VFloat _ f => Some (makeInt (float.to_uint64 f) t)
  | cvtFloat, VFloat _ f => Some (makeFloat f t)
  | cvtIntString, VInt _ x => Some (VString t (rune_string x))
  | cvtUintString, VUint _ x => Some (VString t (rune_string x))
  | cvtStringBytes, VString _ s =>
      Some (VSlice t (map (VUint (Basic Tuint8)) (utf8.bytes_of_string s)))
  | cvtStringRunes, VString _ s =>
      Some (VSlice t (map (VInt (Basic Tint32))
                          (utf8.DecodeString (utf8.bytes_of_string s))))
  | cvtBytesString, VSlice _ l =>
      option_map (fun bs => VString t (utf8.string_of_bytes bs)) (uints_of l)
  | cvtRunesString, VSlice _ l =>
      option_map (fun rs => VString t (utf8.string_of_bytes (flat_map utf8.EncodeRune rs)))
                 (ints_of l)
  | cvtDirect, _ => match v with Nil => None | _ => Some (retag v t) end
  | cvtT2I, _ => match v with Nil => None | _ => Some v end
  | _, _ => None
  end.

Section MethodSets.

(** The method set of every declared type, by method name. *)
Variable methodSet : rtype -> list string.

Definition has_method (V : rtype) (m : string) : bool :=
  existsb (String.eqb m)
          (match underlying V with InterfaceOf ms => ms | _ => methodSet V end).

(** [implements(T, V)]: [T] is an interface type and [V] has its methods. *)
Definition implements (T V : rtype) : bool :=
  match underlying T with
  | InterfaceOf ms => forallb (has_method V) ms
  | _ => false
  end.

(** [V.Implements(T)], which panics ([None]) unless [T] is an interface type. *)
Definition Implements (V T : rtype) : option bool :=
  match KindOf T with
  | Interface => Some (implements T V)
  | _ => None
  end.

(** The first part of [convertOp(dst, src)]: the [switch] on the kind of
    the source. *)
Definition convertOp_kind (dst src : rtype) : option cvt :=
  let sk := KindOf src in
  let dk := KindOf dst in
  if is_int sk then
    if is_int dk || is_uint dk then Some cvtInt
    else if is_float dk then Some cvtIntFloat
    else if Kind_eqb dk String then Some cvtIntString
    else None
  else if is_uint sk then
    if is_int dk || is_uint dk then Some cvtUint
    else if is_float dk then Some cvtUintFloat
    else if Kind_eqb dk String then Some cvtUintString
    else None
  else if is_float sk then
    if is_int dk then Some cvtFloatInt
    else if is_uint dk then Some cvtFloatUint
    else if is_float dk then Some cvtFloat
    else None
  else if Kind_eqb sk String && Kind_eqb dk Slice then
    match Elem dst with
    | Some e =>
        if no_pkgPath e && Kind_eqb (KindOf e) Uint8 then Some cvtStringBytes
        else if no_pkgPath e && Kind_eqb (KindOf e) Int32 then Some cvtStringRunes
        else None
    | None => None
    end
  else if Kind_eqb sk Slice && Kind_eqb dk String then
    match Elem src with
    | Some e =>
        if no_pkgPath e && Kind_eqb (KindOf e) Uint8 then Some cvtBytesString
        else if no_pkgPath e && Kind_eqb (KindOf e) Int32 then Some cvtRunesString
        else None
    | None => None
    end
  else None.

(** [convertOp(dst, src)]: the conversion by kind, else a direct conversion
    between types of identical underlying type or between unnamed pointers
    to such types, else the conversion to an interface the source type
    implements, else none. *)
Definition convertOp (dst src : rtype) : option cvt :=
  match convertOp_kind dst src with
  | Some op => Some op
  | None =>
      if haveIdenticalUnderlyingType dst src then Some cvtDirect
      else if match dst, src with
              | PtrTo d, PtrTo s => haveIdenticalUnderlyingType d s
              | _, _ => false
              end then Some cvtDirect
      else if implements dst src then Some cvtT2I
      else None
  end.

(** [src.ConvertibleTo(dst)] *)
Definition ConvertibleTo (src dst : rtype) : bool :=
  match convertOp dst src with Some _ => true | None => false end.

(** [reflect.ValueOf(v).Convert(t).Interface()]; [None] is a panic. *)
Definition Value_Convert (v : value) (t : rtype) : option value :=
  match TypeOf v with
  | None => None
  | Some src =>
      match convertOp t src with
      | Some op => apply_cvt op v t
      | None => None
      end
  end.

(** [directlyAssignable(T, V) || implements(T, V)]: a value of type [V] may
    be stored in a variable, element or map slot of type [T]. *)
Definition assignable (T V : rtype) : bool :=
  rtype_eqb T V
  || (negb (HasName T && HasName V)
      && Kind_eqb (KindOf T) (KindOf V)
      && haveIdenticalUnderlyingType T V)
  || implements T V.

(** [x.assignTo(T)] succeeds: [x] is a valid value assignable to [T]. *)
Definition assignableTo (x : value) (T : rtype) : bool :=
  match TypeOf x with
  | Some V => assignable T V
  | None => false
  end.

End MethodSets.

(** *** Map keys

    [key_eqb] is Go's [==] on two map keys (dynamic types identical and data
    equal; NaN differs from itself, the two zeros are equal); slices and
    maps cannot be keys. *)

Fixpoint hashable (v : value) : bool :=
  match v with
  | VSlice _ _ | VMap _ _ => false
  | VStruct _ fs =>
      (fix all (l : list value) : bool :=
         match l with [] => true | x :: r => hashable x && all r end) fs
  | _ => true
  end.

Fixpoint key_eqb (a b : value) : bool :=
  match a, b with
  | Nil, Nil => true
  | VBool t x, VBool t' y => rtype_eqb t t' && Bool.eqb x y
  | VInt t x, VInt t' y => rtype_eqb t t' && (x =? y)
  | VUint t x, VUint t' y => rtype_eqb t t' && (x =? y)
  | VFloat t x, VFloat t' y => rtype_eqb t t' && float.eqb x y
  | VString t x, VString t' y => rtype_eqb t t' && String.eqb x y
  | VPtr t x, VPtr t' y =>
      rtype_eqb t t'
      && match x, y with
         | Some l, Some l' => Nat.eqb l l'
         | None, None => true
         | _, _ => false
         end
  | VStruct t fs, VStruct t' fs' =>
      rtype_eqb t t'
      && (fix all2 (l l' : list value) {struct l} : bool :=
            match l, l' with
            | [], [] => true
            | x :: r, y :: r' => key_eqb x y && all2 r r'
            | _, _ => false
            end) fs fs'
  | _, _ => false
  end.


(** [m[k] = e]: an entry with an equal key is overwritten in place,
    otherwise the entry is new. *)
Fixpoint map_assign (m : list (value * value)) (k e : value) : list (value * value) :=
  match m with
  | [] => [(k, e)]
  | (k', e') :: r => if key_eqb k' k then (k, e) :: r else (k', e') :: map_assign r k e
  end.

End reflect.

Import reflect.

(** ** Package [elastic] *)

(** Go's [error] values: the three sentinels of the package, the errors of
    [strconv], and any other error a converter may return.  Errors are
    compared by identity, as [err != ErrNoConversionAvailable] does. *)
Inductive error :=
| ErrExpectedPointer
| ErrIncompatibleType
| ErrNoConversionAvailable
| ErrNum (e : strconv.NumError)
| ErrOther (msg : string).

Definition is_ErrNoConversionAvailable (err : error) : bool :=
  match err with ErrNoConversionAvailable => true | _ => false end.

(** [type ConverterFunc func(source interface{}, targetType reflect.Type)
    (interface{}, error)]; [None] is the nil error. *)
Definition ConverterFunc := value -> rtype -> value * option error.

(** The interfaces the engine asserts on a source value. *)
Definition ConverterTo : rtype := Named "elastic.ConverterTo" (InterfaceOf ["ConvertTo"]).
Definition Stringer : rtype := Named "fmt.Stringer" (InterfaceOf ["String"]).

(** The declarations of the program that uses the engine: the method set of
    each type, and the two methods the engine calls. *)
Record Program := mkProgram {
  methodSet : rtype -> list string;
  String_method : value -> string;
  ConvertTo_method : value -> rtype -> value * option error
}.

(** [map[reflect.Type][]ConverterFunc].  The entries are kept in a list;
    for [interfaceConverters], which [Convert] ranges over, the order of the
    list stands for the order the runtime happens to iterate in, which Go
    leaves unspecified. *)
Definition registry := list (rtype * list ConverterFunc).

Record ConverterEngine := mkEngine {
  sourceConverters : registry;
  targetConverters : registry;
  interfaceConverters : registry
}.

(** [New()] *)
Definition New : ConverterEngine := mkEngine [] [] [].

(** [r[t]]: the nil slice when the key is absent; no converter is registered
    under the nil [Type]. *)
Fixpoint registry_get (r : registry) (t : option rtype) : list ConverterFunc :=
  match r with
  | [] => []
  | (k, cf) :: r' => if type_eqb (Some k) t then cf else registry_get r' t
  end.

(** [cf := r[t]; cf = append(cf, f); r[t] = cf] *)
Fixpoint registry_append (r : registry) (t : rtype) (f : ConverterFunc) : registry :=
  match r with
  | [] => [(t, [f])]
  | (k, cf) :: r' =>
      if rtype_eqb k t then (k, cf ++ [f]) :: r' else (k, cf) :: registry_append r' t f
  end.

Definition AddSourceConverter (ce : ConverterEngine) (sourceType : rtype)
  (f : ConverterFunc) : ConverterEngine :=
  mkEngine (registry_append (sourceConverters ce) sourceType f)
           (targetConverters ce) (interfaceConverters ce).

Definition AddTargetConverter (ce : ConverterEngine) (targetType : rtype)
  (f : ConverterFunc) : ConverterEngine :=
  mkEngine (sourceConverters ce)
           (registry_append (targetConverters ce) targetType f)
           (interfaceConverters ce).

(** [None]: [panic("type must be an interface")]. *)
Definition AddInterfaceConverter (ce : ConverterEngine) (interfaceType : rtype)
  (f : ConverterFunc) : option ConverterEngine :=
  match KindOf interfaceType with
  | Interface =>
      Some (mkEngine (sourceConverters ce) (targetConverters ce)
                     (registry_append (interfaceConverters ce) interfaceType f))
  | _ => None
  end.


(** What a call of [Convert] comes to: the two results of the Go function,
    a run-time panic, or not enough fuel for the recursion. *)
Inductive outcome :=
| Ok (v : value)
| Err (e : error)
| Panic
| OutOfFuel.

(** What a run over a list of converters comes to: every one declined
    ([ErrNoConversionAvailable]), one returned a value, one returned another
    error, or the run panicked. *)
Inductive attempt :=
| Declined
| Found (result : value)
| Failed (err : error)
| Crashed.

(** [for _, converter := range converters { ... }] *)
Fixpoint try_converters (converters : list ConverterFunc) (source : value)
  (targetType : rtype) : attempt :=
  match converters with
  | [] => Declined
  | converter :: rest =>
      match converter source targetType with
      | (result, None) => Found result
      | (_, Some err) =>
          if is_ErrNoConversionAvailable err
          then try_converters rest source targetType
          else Failed err
      end
  end.



Section Engine.

Variable prog : Program.
Variable ce : ConverterEngine.

(** [source.(ConverterTo)] and [source.(fmt.Stringer)]: the assertion holds
    when the source is not nil and its dynamic type has the method. *)
Definition asserts (source : value) (iface : rtype) : bool :=
  match TypeOf source with
  | Some st => implements (methodSet prog) iface st
  | None => false
  end.

(** A single converter call, with the error test that follows each call in
    [Convert]. *)
Definition try_ConverterTo (source : value) (targetType : rtype) : attempt :=
  if asserts source ConverterTo
  then try_converters [fun s t => ConvertTo_method prog s t] source targetType
  else Declined.

(** The inner loop over the functions registered for one interface type:
    [sourceType.Implements(itype)] is evaluated for every function, and
    dereferences a nil [sourceType]. *)
Fixpoint try_interface (converters : list ConverterFunc) (itype : rtype)
  (sourceType : option rtype) (source : value) (targetType : rtype) : attempt :=
  match converters with
  | [] => Declined
  | converter :: rest =>
      match sourceType with
      | None => Crashed
      | Some st =>
          match Implements (methodSet prog) st itype with
          | None => Crashed
          | Some false => try_interface rest itype sourceType source targetType
          | Some true =>
              match converter source targetType with
              | (result, None) => Found result
              | (_, Some err) =>
                  if is_ErrNoConversionAvailable err
                  then try_interface rest itype sourceType source targetType
                  else Failed err
              end
          end
      end
  end.

(** [for itype, converters := range ce.interfaceConverters { ... }] *)
Fixpoint try_interfaces (r : registry) (sourceType : option rtype)
  (source : value) (targetType : rtype) : attempt :=
  match r with
  | [] => Declined
  | (itype, converters) :: r' =>
      match try_interface converters itype sourceType source targetType with
      | Declined => try_interfaces r' sourceType source targetType
      | a => a
      end
  end.

(** [kind2Exact]: [reflect.ValueOf(source).Convert(targetType).Interface()] *)
Definition kind2Exact (source : value) (targetType : rtype) : outcome :=
  match Value_Convert (methodSet prog) source targetType with
  | Some v => Ok v
  | None => Panic
  end.

(** The block [if targetType.Kind() == reflect.String { ... }]; [None] when
    control leaves the block without returning. *)
Definition to_string (source : value) (sourceType : option rtype)
  (targetType : rtype) : option outcome :=
  match KindOf targetType with
  | String =>
      if asserts source Stringer
      then Some (kind2Exact (VString (Basic Tstring) (String_method prog source)) targetType)
      else
        match sourceType with
        | None => Some Panic                      (* sourceType.Kind() on a nil Type *)
        | Some st =>
            match KindOf st, source with
            | Bool, VBool _ b =>
                Some (kind2Exact (VString (Basic Tstring) (strconv.FormatBool b)) targetType)
            | (Int | Int8 | Int16 | Int32 | Int64), VInt _ i =>
                Some (kind2Exact (VString (Basic Tstring) (strconv.FormatInt i)) targetType)
            | (Uint | Uint8 | Uint16 | Uint32 | Uint64), VUint _ u =>
                Some (kind2Exact (VString (Basic Tstring) (strconv.FormatUint u)) targetType)
            | (Float32 | Float64), VFloat _ f =>
                Some (kind2Exact
                        (VString (Basic Tstring)
                                 (strconv.FormatFloat_g f 6 (SizeBits (KindOf st))))
                        targetType)
            | (Bool | Int | Int8 | Int16 | Int32 | Int64
               | Uint | Uint8 | Uint16 | Uint32 | Uint64 | Float32 | Float64), _ =>
                Some Panic                        (* data not of the type's kind *)
            | _, _ => None
            end
        end
  | _ => None
  end.

(** A parse result turned into [Convert]'s: the error verbatim, or the
    parsed value coerced to the target. *)
Definition parsed {A : Type} (r : A + strconv.NumError) (box : A -> value)
  (targetType : rtype) : outcome :=
  match r with
  | inl a => kind2Exact (box a) targetType
  | inr e => Err (ErrNum e)
  end.

(** The block [if sourceType.Kind() == reflect.String { ... }]. *)
Definition from_string (source : value) (sourceType : option rtype)
  (targetType : rtype) : option outcome :=
  match sourceType with
  | None => Some Panic                            (* sourceType.Kind() on a nil Type *)
  | Some st =>
      match KindOf st with
      | String =>
          let bits := SizeBits (KindOf targetType) in
          match KindOf targetType, source with
          | Bool, VString _ s =>
              Some (parsed (strconv.ParseBool s) (VBool (Basic Tbool)) targetType)
          | (Int | Int8 | Int16 | Int32 | Int64), VString _ s =>
              Some (parsed (strconv.ParseInt s bits) (VInt (Basic Tint64)) targetType)
          | (Uint | Uint8 | Uint16 | Uint32 | Uint64), VString _ s =>
              Some (parsed (strconv.ParseUint s bits) (VUint (Basic Tuint64)) targetType)
          | (Float32 | Float64), VString _ s =>
              Some (parsed (strconv.ParseFloat s bits) (VFloat (Basic Tfloat64)) targetType)
          | (Bool | Int | Int8 | Int16 | Int32 | Int64
             | Uint | Uint8 | Uint16 | Uint32 | Uint64 | Float32 | Float64), _ =>
              Some Panic                          (* data not of the type's kind *)
          | _, _ => None
          end
      | _ => None
      end
  end.

(** The loop of [convertSlice]: [items] are the elements of [S] still to
    convert, [T] is the target slice built so far. *)
Fixpoint convertSlice_loop (conv : value -> rtype -> outcome) (items : list value)
  (targetType targetElementType : rtype) (T : list value) : outcome :=
  match items with
  | [] => Ok (VSlice targetType T)
  | x :: items' =>
      match conv x targetElementType with
      | Ok item =>
          if assignableTo (methodSet prog) item targetElementType    (* reflect.Append *)
          then convertSlice_loop conv items' targetType targetElementType (T ++ [item])
          else Panic
      | Err err => Err err
      | Panic => Panic
      | OutOfFuel => OutOfFuel
      end
  end.

(** [convertSlice]; [conv] is the recursive [ce.Convert]. *)
Definition convertSlice (conv : value -> rtype -> outcome) (source : value)
  (targetType : rtype) : outcome :=
  match source, KindOf targetType, Elem targetType with
  | VSlice _ items, Slice, Some targetElementType =>
      convertSlice_loop conv items targetType targetElementType []
  | _, _, _ => Panic
  end.

(** The loop of [convertMap] over the entries in iteration order: the value
    is converted first, then the key, then [T.SetMapIndex(key, value)]. *)
Fixpoint convertMap_loop (conv : value -> rtype -> outcome) (entries : list (value * value))
  (targetType keyType targetElementType : rtype) (T : list (value * value)) : outcome :=
  match entries with
  | [] => Ok (VMap targetType T)
  | (k, v) :: entries' =>
      match conv v targetElementType with
      | Ok value =>
          match conv k keyType with
          | Ok key =>
              if assignableTo (methodSet prog) key keyType
                 && assignableTo (methodSet prog) value targetElementType
                 && hashable key
              then convertMap_loop conv entries' targetType keyType targetElementType
                                   (map_assign T key value)
              else Panic
          | Err err => Err err
          | Panic => Panic
          | OutOfFuel => OutOfFuel
          end
      | Err err => Err err
      | Panic => Panic
      | OutOfFuel => OutOfFuel
      end
  end.

(** [convertMap] *)
Definition convertMap (conv : value -> rtype -> outcome) (source : value)
  (targetType : rtype) : outcome :=
  match source, KindOf targetType, Key targetType, Elem targetType with
  | VMap _ entries, Map, Some keyType, Some targetElementType =>
      convertMap_loop conv entries targetType keyType targetElementType []
  | _, _, _, _ => Panic
  end.

(** The built-in rules, reached when no custom converter took the call. *)
Definition builtin (conv : value -> rtype -> outcome) (source : value)
  (sourceType : option rtype) (targetType : rtype) : outcome :=
  match to_string source sourceType targetType with
  | Some r => r
  | None =>
  match from_string source sourceType targetType with
  | Some r => r
  | None =>
  match sourceType with
  | None => Panic
  | Some st =>
      if Kind_eqb (KindOf st) Slice && Kind_eqb (KindOf targetType) Slice
      then convertSlice conv source targetType
      else if Kind_eqb (KindOf st) Map && Kind_eqb (KindOf targetType) Map
      then convertMap conv source targetType
      else if ConvertibleTo (methodSet prog) st targetType
      then kind2Exact source targetType
      else Err ErrIncompatibleType
  end end end.

(** [Convert].  A custom converter's value is converted again
    ([return ce.Convert(result, targetType)]), which need not terminate;
    [fuel] bounds the depth of the recursion. *)
Fixpoint Convert (fuel : nat) (source : value) (targetType : rtype) : outcome :=
  match fuel with
  | O => OutOfFuel
  | S fuel' =>
  let sourceType := TypeOf source in
  if type_eqb sourceType (Some targetType) then Ok source else
  match try_converters (registry_get (sourceConverters ce) (TypeOf source))
                       source targetType with
  | Found result => Convert fuel' result targetType
  | Failed err => Err err
  | Crashed => Panic
  | Declined =>
  match try_ConverterTo source targetType with
  | Found result => Convert fuel' result targetType
  | Failed err => Err err
  | Crashed => Panic
  | Declined =>
  match try_converters (registry_get (targetConverters ce) (Some targetType))
                       source targetType with
  | Found result => Convert fuel' result targetType
  | Failed err => Err err
  | Crashed => Panic
  | Declined =>
  match try_interfaces (interfaceConverters ce) sourceType source targetType with
  | Found result => Convert fuel' result targetType
  | Failed err => Err err
  | Crashed => Panic
  | Declined => builtin (Convert fuel') source sourceType targetType
  end end end end
  end.

(** The four custom strategies of [Convert] in the order it tries them
    (source converters, [ConverterTo], target converters, interface
    converters), as one run: what the first converter that does not decline
    returns. *)
Definition custom (source : value) (targetType : rtype) : attempt :=
  match try_converters (registry_get (sourceConverters ce) (TypeOf source))
                       source targetType with
  | Declined =>
      match try_ConverterTo source targetType with
      | Declined =>
          match try_converters (registry_get (targetConverters ce) (Some targetType))
                               source targetType with
          | Declined =>
              try_interfaces (interfaceConverters ce) (TypeOf source) source targetType
          | a => a
          end
      | a => a
      end
  | a => a
  end.

(** The same strategies as the sequence of converter calls [Convert] makes
    for one source and target while every call declines.  [Crash] marks a
    panic of [sourceType.Implements(itype)]. *)
Inductive step :=
| Call (converter : ConverterFunc)
| Crash.

Definition interface_steps (sourceType : option rtype)
  (entry : rtype * list ConverterFunc) : list step :=
  let '(itype, converters) := entry in
  flat_map (fun converter =>
              match sourceType with
              | None => [Crash]
              | Some st =>
                  match Implements (methodSet prog) st itype with
                  | None => [Crash]
                  | Some true => [Call converter]
                  | Some false => []
                  end
              end) converters.

Definition calls (source : value) (targetType : rtype) : list step :=
  map Call (registry_get (sourceConverters ce) (TypeOf source))
  ++ (if asserts source ConverterTo
      then [Call (fun s t => ConvertTo_method prog s t)] else [])
  ++ map Call (registry_get (targetConverters ce) (Some targetType))
  ++ flat_map (interface_steps (TypeOf source)) (interfaceConverters ce).

(** A run over such a sequence. *)
Fixpoint run (steps : list step) (source : value) (targetType : rtype) : attempt :=
  match steps with
  | [] => Declined
  | Crash :: _ => Crashed
  | Call converter :: rest =>
      match converter source targetType with
      | (result, None) => Found result
      | (_, Some err) =>
          if is_ErrNoConversionAvailable err then run rest source targetType
          else Failed err
      end
  end.

(** The call returned [ErrNoConversionAvailable]. *)
Definition declines (source : value) (targetType : rtype) (s : step) : Prop :=
  match s with
  | Call converter => exists x, converter source targetType = (x, Some ErrNoConversionAvailable)
  | Crash => False
  end.

(** How [Convert] goes on after a run of custom converters: with a found
    value it starts over, an error or a panic ends it, and when all declined
    the built-in rules apply. *)
Definition resume (fuel : nat) (source : value) (targetType : rtype) (a : attempt)
  : outcome :=
  match a with
  | Found result => Convert fuel result targetType
  | Failed err => Err err
  | Crashed => Panic
  | Declined => builtin (Convert fuel) source (TypeOf source) targetType
  end.

(** [Convert] with enough fuel: the call returns [r] (or panics). *)
Definition Converts (source : value) (targetType : rtype) (r : outcome) : Prop :=
  r <> OutOfFuel /\ exists fuel, Convert fuel source targetType = r.

(** The values [convertSlice] and [convertMap] recurse into: the elements
    of a slice, the keys and the values of a map. *)
Definition component (x source : value) : Prop :=
  match source with
  | VSlice _ items => In x items
  | VMap _ entries => exists k v, In (k, v) entries /\ (x = k \/ x = v)
  | _ => False
  end.

(** The nesting depth of slices and maps in a value. *)
Fixpoint depth (v : value) : nat :=
  match v with
  | VSlice _ items =>
      S ((fix deepest (l : list value) : nat :=
            match l with
            | [] => O
            | x :: r => Nat.max (depth x) (deepest r)
            end) items)
  | VMap _ entries =>
      S ((fix deepest (l : list (value * value)) : nat :=
            match l with
            | [] => O
            | (k, x) :: r => Nat.max (Nat.max (depth k) (depth x)) (deepest r)
            end) entries)
  | _ => O
  end.

(** Neither the value nor anything nested in its slices and maps implements
    [ConverterTo]. *)
Fixpoint no_ConverterTo (v : value) : bool :=
  negb (asserts v ConverterTo)
  && match v with
     | VSlice _ items =>
         (fix all (l : list value) : bool :=
            match l with
            | [] => true
            | x :: r => no_ConverterTo x && all r
            end) items
     | VMap _ entries =>
         (fix all (l : list (value * value)) : bool :=
            match l with
            | [] => true
            | (k, x) :: r => no_ConverterTo k && no_ConverterTo x && all r
            end) entries
     | _ => true
     end.

(** A successful result of the target type, or else any value assignable
    to an interface target. *)
Definition fits (v : value) (t : rtype) : Prop :=
  assignableTo (methodSet prog) v t = true /\ (KindOf t <> Interface -> TypeOf v = Some t).



(** The variables pointers point to. *)
Definition heap := loc -> value.

Definition heap_set (h : heap) (l : loc) (v : value) : heap :=
  fun l' => if Nat.eqb l' l then v else h l'.

(** What a call of [Set] comes to: its [error] result ([None] is nil), a
    panic, or not enough fuel. *)
Inductive set_outcome :=
| Returned (err : option error)
| SetPanic
| SetOutOfFuel.

(** [Set]: the heap after the call, and the result. *)
Definition Set_ (fuel : nat) (h : heap) (target source : value) : heap * set_outcome :=
  match option_map KindOf (TypeOf target), target with
  | Some Ptr, VPtr t (Some l) =>
      match Elem t with
      | None => (h, SetPanic)
      | Some T =>
          match Convert fuel source T with
          | Err err => (h, Returned (Some err))
          | Panic => (h, SetPanic)
          | OutOfFuel => (h, SetOutOfFuel)
          | Ok converted =>
              if assignableTo (methodSet prog) converted T          (* T.Set *)
              then (heap_set h l converted, Returned None)
              else (h, SetPanic)
          end
      end
  | Some Ptr, _ => (h, SetPanic)                 (* T.Type() on the zero Value *)
  | _, _ => (h, Returned (Some ErrExpectedPointer))
  end.

End Engine.

(** The integer and floating-point kinds. *)
Definition is_number (k : Kind) : bool := is_int k || is_uint k || is_float k.

(** *** Booleans and numbers as text

    [render v] is the text the string rule of [Convert] prints for a
    boolean or a number; [scalar_of t v] says that [v] is a value of type [t]
    of one of the kinds that rule handles, within the range of its kind. *)



(** ** The declarations and converters of [convert_test.go] *)

Module test.

Definition bool_ : rtype := Basic Tbool.
Definition int : rtype := Basic Tint.
Definition int8 : rtype := Basic Tint8.
Definition int16 : rtype := Basic Tint16.
Definition int32 : rtype := Basic Tint32.
Definition int64 : rtype := Basic Tint64.
Definition uint : rtype := Basic Tuint.
Definition uint8 : rtype := Basic Tuint8.
Definition uint16 : rtype := Basic Tuint16.
Definition uint32 : rtype := Basic Tuint32.
Definition uint64 : rtype := Basic Tuint64.
Definition float32 : rtype := Basic Tfloat32.
Definition float64 : rtype := Basic Tfloat64.
Definition string_ : rtype := Basic Tstring.

(** [interface{}] *)
Definition any : rtype := InterfaceOf [].

Definition StringAlias : rtype := Named "StringAlias" string_.
Definition FloatAlias : rtype := Named "FloatAlias" float64.
Definition IntAlias : rtype := Named "IntAlias" int.
Definition TestStruct : rtype := Named "TestStruct" (StructOf [("X", int); ("Y", int)]).
Definition ConversionTest : rtype :=
  Named "ConversionTest"
        (StructOf [("source", any); ("expectedResult", any);
                   ("expectedError", Named "error" (InterfaceOf ["Error"]))]).

(** A decimal literal [n / d] as a [float64] and as a [float32]. *)
Definition f64 (neg : bool) (n d : positive) : spec_float := float.of_ratio 64 neg n d.
Definition f32 (neg : bool) (n d : positive) : spec_float := float.of_ratio 32 neg n d.

Section WithHeap.

(** The variables the test's pointers point to. *)
Variable h : heap.

(** [func (ts *TestStruct) String() string] *)
Definition TestStruct_String (ts : value) : string :=
  match ts with
  | VPtr _ (Some l) =>
      match h l with
      | VStruct _ [VInt _ X; VInt _ Y] =>
          ("(" ++ strconv.FormatInt X ++ ", " ++ strconv.FormatInt Y ++ ")")%string
      | _ => ""
      end
  | _ => ""
  end.

(** [func (ts *TestStruct) ConvertTo(targetType reflect.Type) (interface{}, error)] *)
Definition TestStruct_ConvertTo (ts : value) (targetType : rtype) : value * option error :=
  match KindOf targetType, ts with
  | Float64, VPtr _ (Some l) =>
      match h l with
      | VStruct _ [VInt _ X; VInt _ Y] =>
          (VFloat float64
                  (float.sqrt64 (float.add64 (float.of_Z 64 (intN 64 (X * X)))
                                             (float.of_Z 64 (intN 64 (Y * Y))))),
           None)
      | _ => (Nil, Some ErrNoConversionAvailable)
      end
  | _, _ => (Nil, Some ErrNoConversionAvailable)
  end.

(** Only [*TestStruct] has methods. *)
Definition program : Program :=
  mkProgram
    (fun t => if rtype_eqb t (PtrTo TestStruct) then ["String"; "ConvertTo"]%string else [])
    TestStruct_String
    TestStruct_ConvertTo.

End WithHeap.

(** The source converter registered for [FloatAlias], which rounds:
    [f := source.(FloatAlias); d := f - FloatAlias(int(f));
     if d > 0.5 { return int(f) + 1, nil }; return int(f), nil]. *)
Definition roundFloatAlias : ConverterFunc :=
  fun source targetType =>
    match KindOf targetType, source with
    | Int, VFloat _ f =>
        let i := float.to_int64 f in
        let d := float.sub64 f (float.of_Z 64 i) in
        if float.gtb d (f64 false 5 10)
        then (VInt int (intN 64 (i + 1)), None)
        else (VInt int i, None)
    | _, _ => (Nil, Some ErrNoConversionAvailable)
    end.

(** [binary.BigEndian.Uint32] on the first four bytes. *)
Definition BigEndian_Uint32 (b : list Z) : Z :=
  match b with
  | b0 :: b1 :: b2 :: b3 :: _ => b0 * 2 ^ 24 + b1 * 2 ^ 16 + b2 * 2 ^ 8 + b3
  | _ => 0
  end.

(** The target converter registered for [TestStruct], which unpacks eight
    bytes. *)
Definition unpackTestStruct : ConverterFunc :=
  fun source targetType =>
    match source with
    | VSlice (SliceOf (Basic Tuint8)) elems =>
        match uints_of elems with
        | Some b =>
            if Nat.eqb (List.length b) 8
            then (VStruct TestStruct [VInt int (BigEndian_Uint32 b);
                                      VInt int (BigEndian_Uint32 (skipn 4 b))], None)
            else (Nil, Some ErrNoConversionAvailable)
        | None => (Nil, Some ErrNoConversionAvailable)
        end
    | _ => (Nil, Some ErrNoConversionAvailable)
    end.

(** [elastic.Default] after the two registrations of [TestConvert]. *)
Definition Default : ConverterEngine :=
  AddTargetConverter (AddSourceConverter New FloatAlias roundFloatAlias)
                     TestStruct unpackTestStruct.

(** A heap with [TestStruct{X: 5, Y: 7}] at address 0. *)
Definition heap0 : heap :=
  fun l => match l with
           | O => VStruct TestStruct [VInt int 5; VInt int 7]
           | _ => Nil
           end.

(** The program with no declared methods at all. *)
Definition plain : Program :=
  mkProgram (fun _ => []) (fun _ => ""%string) (fun _ _ => (Nil, Some ErrNoConversionAvailable)).

End test.

(** * Properties *)

(** ** Type descriptors *)

(** Induction over type descriptors that reaches the field types of a
    struct type. *)
Lemma rtype_nested_ind (P : rtype -> Prop)
  (fBasic : forall b, P (Basic b))
  (fNamed : forall n u, P u -> P (Named n u))
  (fSlice : forall e, P e -> P (SliceOf e))
  (fMap : forall k e, P k -> P e -> P (MapOf k e))
  (fPtr : forall e, P e -> P (PtrTo e))
  (fStruct : forall fs, Forall (fun p => P (snd p)) fs -> P (StructOf fs))
  (fIface : forall ms, P (InterfaceOf ms)) : forall t, P t.
Proof.
  exact (fix F (t : rtype) : P t :=
    match t with
    | Basic b => fBasic b
    | Named n u => fNamed n u (F u)
    | SliceOf e => fSlice e (F e)
    | MapOf k e => fMap k e (F k) (F e)
    | PtrTo e => fPtr e (F e)
    | StructOf fs =>
        fStruct fs
          ((fix G (l : list (string * rtype)) : Forall (fun p => P (snd p)) l :=
              match l with
              | [] => Forall_nil _
              | p :: r =>
                  Forall_cons p
                    (match p as p0 return P (snd p0) with (_, t') => F t' end)
                    (G r)
              end) fs)
    | InterfaceOf ms => fIface ms
    end).
Qed.

Lemma basic_eqb_eq (a b : basic) : basic_eqb a b = true <-> a = b.
Proof.
  split.
  - destruct a, b; simpl; intros H; try reflexivity; discriminate H.
  - intros ->. destruct b; reflexivity.
Qed.

Lemma strings_eqb_eq (a b : list string) : strings_eqb a b = true <-> a = b.
Proof.
  revert b. induction a as [|x a IH]; intros [|y b]; simpl; split; intros H;
    try reflexivity; try discriminate H.
  - apply andb_true_iff in H. destruct H as [Hx Hr].
    apply String.eqb_eq in Hx. apply IH in Hr. congruence.
  - injection H as -> ->. rewrite String.eqb_refl. apply IH. reflexivity.
Qed.

Lemma rtype_eqb_eq (a b : rtype) : rtype_eqb a b = true <-> a = b.
Proof.
  revert b. induction a as [x|n u IH|e IH|k e IHk IHe|e IH|fs IH|ms]
    using rtype_nested_ind; intros b; destruct b; simpl;
    try (split; intros H; discriminate H).
  - rewrite basic_eqb_eq. split; congruence.
  - rewrite andb_true_iff, String.eqb_eq, IH. split.
    + intros [-> ->]. reflexivity.
    + intros H. injection H as -> ->. auto.
  - rewrite IH. split; congruence.
  - rewrite andb_true_iff, IHk, IHe. split.
    + intros [-> ->]. reflexivity.
    + intros H. injection H as -> ->. auto.
  - rewrite IH. split; congruence.
  - rename fields into fs'.
    assert (E : forall l',
      (fix fields_eqb (l l' : list (string * rtype)) {struct l} : bool :=
         match l, l' with
         | [], [] => true
         | (n, t) :: r, (n', t') :: r' =>
             String.eqb n n' && rtype_eqb t t' && fields_eqb r r'
         | _, _ => false
         end) fs l' = true <-> fs = l').
    { induction IH as [|[n t] r Ht _ IHr]; intros [|[n' t'] r'];
        try (split; intros H; try reflexivity; discriminate H).
      rewrite !andb_true_iff, String.eqb_eq, IHr. simpl in Ht. rewrite Ht. split.
      - intros [[-> ->] ->]. reflexivity.
      - intros H. injection H as -> -> ->. auto. }
    rewrite E. split; congruence.
  - rewrite strings_eqb_eq. split; congruence.
Qed.

Lemma rtype_eqb_refl (t : rtype) : rtype_eqb t t = true.
Proof. apply rtype_eqb_eq. reflexivity. Qed.

Lemma rtype_eqb_neq (a b : rtype) : rtype_eqb a b = false <-> a <> b.
Proof.
  split.
  - intros H E. apply rtype_eqb_eq in E. congruence.
  - intros H. destruct (rtype_eqb a b) eqn:E; [|reflexivity].
    apply rtype_eqb_eq in E. contradiction.
Qed.

Lemma type_eqb_eq (a b : option rtype) : type_eqb a b = true <-> a = b.
Proof.
  destruct a as [x|], b as [y|]; simpl; try rewrite rtype_eqb_eq;
    split; intros H; try congruence; try discriminate H.
Qed.

Lemma Kind_eqb_eq (a b : Kind) : Kind_eqb a b = true <-> a = b.
Proof.
  split.
  - destruct a, b; simpl; intros H; try reflexivity; discriminate H.
  - intros ->. destruct b; reflexivity.
Qed.

(** ** [reflect.Value.Convert] *)

Section Reflect.

Variable ms : rtype -> list string.

Lemma makeInt_type (bits : Z) (t : rtype) : TypeOf (makeInt bits t) = Some t.
Proof. unfold makeInt. destruct (is_int (KindOf t)); reflexivity. Qed.

Lemma makeFloat_type (f : spec_float) (t : rtype) : TypeOf (makeFloat f t) = Some t.
Proof. unfold makeFloat. destruct (KindOf t); reflexivity. Qed.

Lemma retag_type (v : value) (t : rtype) : v <> Nil -> TypeOf (retag v t) = Some t.
Proof. destruct v; simpl; intros H; try reflexivity. contradiction. Qed.

(** Every conversion function but [cvtT2I] returns a value of the type
    asked for. *)
Lemma apply_cvt_type (op : cvt) (v v' : value) (t : rtype) :
  apply_cvt op v t = Some v' -> op <> cvtT2I -> TypeOf v' = Some t.
Proof.
  intros H Hop.
  destruct op; try contradiction; destruct v; simpl in H; try discriminate H;
    try (injection H as <-;
         first [apply makeInt_type | apply makeFloat_type | reflexivity]).
  - destruct (uints_of elems); simpl in H; [injection H as <-; reflexivity | discriminate H].
  - destruct (ints_of elems); simpl in H; [injection H as <-; reflexivity | discriminate H].
Qed.

(** [convertOp] picks [cvtT2I] only for an interface type the source type
    implements. *)
Lemma convertOp_kind_not_T2I (dst src : rtype) :
  convertOp_kind dst src <> Some cvtT2I.
Proof.
  unfold convertOp_kind.
  repeat match goal with
         | |- (if ?x then _ else _) <> _ => destruct x
         | |- (match ?x with _ => _ end) <> _ => destruct x
         end; discriminate.
Qed.

Lemma convertOp_T2I (dst src : rtype) :
  convertOp ms dst src = Some cvtT2I -> implements ms dst src = true.
Proof.
  unfold convertOp. intros H.
  destruct (convertOp_kind dst src) as [op|] eqn:Hk.
  - exfalso. apply (convertOp_kind_not_T2I dst src). congruence.
  - destruct (haveIdenticalUnderlyingType dst src); [discriminate H|].
    destruct (match dst, src with
              | PtrTo d, PtrTo s => haveIdenticalUnderlyingType d s
              | _, _ => false
              end); [discriminate H|].
    destruct (implements ms dst src); [reflexivity | discriminate H].
Qed.

Lemma implements_Interface (T V : rtype) :
  implements ms T V = true -> KindOf T = Interface.
Proof.
  unfold implements, KindOf. destruct (underlying T); intros H;
    try discriminate H. reflexivity.
Qed.

(** The value [Convert(t).Interface()] returns has type [t], unless [t] is an
    interface type: then it is the source itself, which implements [t]. *)
Lemma Value_Convert_type (v v' : value) (t : rtype) :
  Value_Convert ms v t = Some v' ->
  TypeOf v' = Some t
  \/ (v' = v /\ exists st, TypeOf v = Some st /\ implements ms t st = true).
Proof.
  unfold Value_Convert. destruct (TypeOf v) as [st|] eqn:Hst; [|discriminate].
  destruct (convertOp ms t st) as [op|] eqn:Hop; [|discriminate].
  intros H. destruct op;
    try (left; eapply apply_cvt_type; [exact H | discriminate]).
  right. split.
  - destruct v; simpl in H; congruence.
  - exists st. split; [reflexivity|]. apply convertOp_T2I. exact Hop.
Qed.

Lemma assignable_refl (t : rtype) : assignable ms t t = true.
Proof. unfold assignable. rewrite rtype_eqb_refl. reflexivity. Qed.

Lemma Value_Convert_assignable (v v' : value) (t : rtype) :
  Value_Convert ms v t = Some v' -> assignableTo ms v' t = true.
Proof.
  intros H. apply Value_Convert_type in H. unfold assignableTo.
  destruct H as [H | [-> [st [Hst Him]]]].
  - rewrite H. apply assignable_refl.
  - rewrite Hst. unfold assignable. rewrite Him. apply orb_true_r.
Qed.

Lemma Value_Convert_exact (v v' : value) (t : rtype) :
  Value_Convert ms v t = Some v' -> KindOf t <> Interface -> TypeOf v' = Some t.
Proof.
  intros H Hk. apply Value_Convert_type in H.
  destruct H as [H | [_ [st [_ Him]]]]; [exact H|].
  apply implements_Interface in Him. contradiction.
Qed.

End Reflect.

(** ** The structure of [Convert] *)

Section ConvertFacts.

Variable prog : Program.
Variable ce : ConverterEngine.

Local Abbreviation ms := (methodSet prog).
Local Abbreviation Convert' := (Convert prog ce).

(** One step of [Convert]: identity, else the custom strategies, else the
    built-in rules. *)
Lemma Convert_S (n : nat) (source : value) (targetType : rtype) :
  Convert' (S n) source targetType =
  if type_eqb (TypeOf source) (Some targetType) then Ok source
  else match custom prog ce source targetType with
       | Found result => Convert' n result targetType
       | Failed err => Err err
       | Crashed => Panic
       | Declined => builtin prog (Convert' n) source (TypeOf source) targetType
       end.
Proof.
  simpl. unfold custom.
  destruct (type_eqb (TypeOf source) (Some targetType)); [reflexivity|].
  destruct (try_converters (registry_get (sourceConverters ce) (TypeOf source))
                           source targetType); try reflexivity.
  destruct (try_ConverterTo prog source targetType); try reflexivity.
  destruct (try_converters (registry_get (targetConverters ce) (Some targetType))
                           source targetType); try reflexivity.
Qed.

Lemma kind2Exact_Ok (w v : value) (t : rtype) :
  kind2Exact prog w t = Ok v <-> Value_Convert ms w t = Some v.
Proof.
  unfold kind2Exact. destruct (Value_Convert ms w t); split; intros H;
    try discriminate H; congruence.
Qed.

Lemma kind2Exact_cases (w : value) (t : rtype) :
  (exists v, kind2Exact prog w t = Ok v /\ Value_Convert ms w t = Some v)
  \/ kind2Exact prog w t = Panic.
Proof.
  unfold kind2Exact. destruct (Value_Convert ms w t) as [v|]; [left|right]; eauto.
Qed.

(** What the string-target block returns, when it returns. *)
Lemma to_string_cases (source : value) (st : option rtype) (t : rtype) (r : outcome) :
  to_string prog source st t = Some r ->
  r = Panic \/ exists w, r = kind2Exact prog w t.
Proof.
  unfold to_string. destruct (KindOf t); try discriminate.
  destruct (asserts prog source Stringer).
  - intros H. injection H as <-. right. eauto.
  - destruct st as [st|]; [|intros H; injection H as <-; left; reflexivity].
    destruct (KindOf st), source; intros H; try discriminate H;
      injection H as <-; eauto.
Qed.

(** What the string-source block returns, when it returns. *)
Lemma from_string_cases (source : value) (st : option rtype) (t : rtype) (r : outcome) :
  from_string prog source st t = Some r ->
  r = Panic \/ (exists e, r = Err (ErrNum e)) \/ exists w, r = kind2Exact prog w t.
Proof.
  unfold from_string. destruct st as [st|]; [|intros H; injection H as <-; auto].
  destruct (KindOf st); try discriminate.
  destruct (KindOf t), source; intros H; try discriminate H; injection H as <-;
    auto; unfold parsed;
    match goal with
    | |- context [match ?p with inl _ => _ | inr _ => _ end] => destruct p
    end; eauto.
Qed.

(** What the built-in rules return. *)
Lemma builtin_cases (conv : value -> rtype -> outcome) (source : value)
  (st : option rtype) (t : rtype) :
  let r := builtin prog conv source st t in
  r = Panic
  \/ (exists e, r = Err (ErrNum e))
  \/ (exists w, r = kind2Exact prog w t)
  \/ r = convertSlice prog conv source t
  \/ r = convertMap prog conv source t
  \/ r = Err ErrIncompatibleType.
Proof.
  unfold builtin.
  destruct (to_string prog source st t) as [r|] eqn:Hts.
  { apply to_string_cases in Hts. simpl. tauto. }
  destruct (from_string prog source st t) as [r|] eqn:Hfs.
  { apply from_string_cases in Hfs. simpl. tauto. }
  destruct st as [st|]; simpl; [|tauto].
  destruct (Kind_eqb (KindOf st) Slice && Kind_eqb (KindOf t) Slice); [tauto|].
  destruct (Kind_eqb (KindOf st) Map && Kind_eqb (KindOf t) Map); [tauto|].
  destruct (ConvertibleTo ms st t); [|tauto].
  right. right. left. eauto.
Qed.

(** The loops return the error, panic or starvation of an element
    conversion, a panic of their own, or a container of the target type. *)
Lemma convertSlice_loop_cases (conv : value -> rtype -> outcome) (items : list value)
  (t et : rtype) (T : list value) :
  let r := convertSlice_loop prog conv items t et T in
  (exists l, r = Ok (VSlice t l)) \/ r = Panic
  \/ exists x, In x items /\ r = conv x et /\ forall v, r <> Ok v.
Proof.
  revert T. induction items as [|x items IH]; intros T; simpl.
  - left. eauto.
  - destruct (conv x et) as [item|e| |] eqn:Hx.
    + destruct (assignableTo ms item et); [|auto].
      destruct (IH (T ++ [item])) as [H|[H|[y [Hy [H1 H2]]]]]; auto.
      right. right. exists y. auto.
    + right. right. exists x. rewrite Hx. repeat split; auto. discriminate.
    + auto.
    + right. right. exists x. rewrite Hx. repeat split; auto. discriminate.
Qed.

Lemma convertMap_loop_cases (conv : value -> rtype -> outcome)
  (entries : list (value * value)) (t kt et : rtype) (T : list (value * value)) :
  let r := convertMap_loop prog conv entries t kt et T in
  (exists m, r = Ok (VMap t m)) \/ r = Panic
  \/ exists x ty, (r = conv x ty) /\ forall v, r <> Ok v.
Proof.
  revert T. induction entries as [|[k v] entries IH]; intros T; simpl.
  - left. eauto.
  - destruct (conv v et) as [value|e| |] eqn:Hv.
    + destruct (conv k kt) as [key|e| |] eqn:Hk.
      * destruct (assignableTo ms key kt && assignableTo ms value et && hashable key);
          [|auto]. apply IH.
      * right. right. exists k, kt. rewrite Hk. split; auto. discriminate.
      * auto.
      * right. right. exists k, kt. rewrite Hk. split; auto. discriminate.
    + right. right. exists v, et. rewrite Hv. split; auto. discriminate.
    + auto.
    + right. right. exists v, et. rewrite Hv. split; auto. discriminate.
Qed.

Lemma convertSlice_cases (conv : value -> rtype -> outcome) (source : value) (t : rtype) :
  let r := convertSlice prog conv source t in
  (exists l, r = Ok (VSlice t l)) \/ r = Panic
  \/ exists x ty, (r = conv x ty) /\ forall v, r <> Ok v.
Proof.
  unfold convertSlice. destruct source; simpl; auto.
  destruct (KindOf t); auto. destruct (Elem t) as [et|]; auto.
  destruct (convertSlice_loop_cases conv elems t et []) as [H|[H|[x [_ H]]]]; eauto.
Qed.

Lemma convertMap_cases (conv : value -> rtype -> outcome) (source : value) (t : rtype) :
  let r := convertMap prog conv source t in
  (exists m, r = Ok (VMap t m)) \/ r = Panic
  \/ exists x ty, (r = conv x ty) /\ forall v, r <> Ok v.
Proof.
  unfold convertMap. destruct source; simpl; auto.
  destruct (KindOf t); auto. destruct (Key t) as [kt|]; auto.
  destruct (Elem t) as [et|]; auto. apply convertMap_loop_cases.
Qed.

(** *** The type of a successful result *)

Lemma fits_exact (v : value) (t : rtype) : TypeOf v = Some t -> fits prog v t.
Proof.
  intros H. split; [|auto]. unfold assignableTo. rewrite H. apply assignable_refl.
Qed.

Lemma fits_Value_Convert (w v : value) (t : rtype) :
  Value_Convert ms w t = Some v -> fits prog v t.
Proof.
  intros H. split.
  - eapply Value_Convert_assignable; eauto.
  - eapply Value_Convert_exact; eauto.
Qed.

Lemma builtin_fits (conv : value -> rtype -> outcome) (source : value)
  (st : option rtype) (t : rtype) (v : value) :
  (forall x ty v', conv x ty = Ok v' -> fits prog v' ty) ->
  builtin prog conv source st t = Ok v -> fits prog v t.
Proof.
  intros Hconv H.
  destruct (builtin_cases conv source st t) as [E|[[e E]|[[w E]|[E|[E|E]]]]];
    rewrite E in H; try discriminate H.
  - apply kind2Exact_Ok in H. eapply fits_Value_Convert; eauto.
  - destruct (convertSlice_cases conv source t) as [[l El]|[El|[x [ty [_ El]]]]].
    + rewrite El in H. injection H as <-. apply fits_exact. reflexivity.
    + congruence.
    + exfalso. eapply El. eauto.
  - destruct (convertMap_cases conv source t) as [[l El]|[El|[x [ty [_ El]]]]].
    + rewrite El in H. injection H as <-. apply fits_exact. reflexivity.
    + congruence.
    + exfalso. eapply El. eauto.
Qed.

(** Whatever the path, a successful [Convert] returns a value that fits the
    target. *)
Lemma Convert_fits (n : nat) :
  forall source t v, Convert' n source t = Ok v -> fits prog v t.
Proof.
  induction n as [|n IH]; intros source t v H; [discriminate H|].
  rewrite Convert_S in H.
  destruct (type_eqb (TypeOf source) (Some t)) eqn:Hid.
  - injection H as <-. apply fits_exact. apply type_eqb_eq. exact Hid.
  - destruct (custom prog ce source t); try discriminate H.
    + eapply builtin_fits; eauto.
    + eapply IH; eauto.
Qed.

(** *** The sentinel never leaves [Convert] *)

Lemma try_converters_Failed (cs : list ConverterFunc) (source : value) (t : rtype)
  (err : error) :
  try_converters cs source t = Failed err -> is_ErrNoConversionAvailable err = false.
Proof.
  induction cs as [|c cs IH]; simpl; [discriminate|].
  destruct (c source t) as [result [e|]]; [|discriminate].
  destruct (is_ErrNoConversionAvailable e) eqn:He; [exact IH|].
  intros H. injection H as <-. exact He.
Qed.

Lemma try_interface_Failed (cs : list ConverterFunc) (itype : rtype)
  (st : option rtype) (source : value) (t : rtype) (err : error) :
  try_interface prog cs itype st source t = Failed err ->
  is_ErrNoConversionAvailable err = false.
Proof.
  induction cs as [|c cs IH]; simpl; [discriminate|].
  destruct st as [st|]; [|discriminate].
  destruct (Implements ms st itype) as [[|]|]; try discriminate; [|exact IH].
  destruct (c source t) as [result [e|]]; [|discriminate].
  destruct (is_ErrNoConversionAvailable e) eqn:He; [exact IH|].
  intros H. injection H as <-. exact He.
Qed.

Lemma try_interfaces_Failed (r : registry) (st : option rtype) (source : value)
  (t : rtype) (err : error) :
  try_interfaces prog r st source t = Failed err ->
  is_ErrNoConversionAvailable err = false.
Proof.
  induction r as [|[itype cs] r IH]; simpl; [discriminate|].
  destruct (try_interface prog cs itype st source t) eqn:Hi; try discriminate.
  - exact IH.
  - intros H. injection H as <-. eapply try_interface_Failed; eauto.
Qed.

Lemma custom_Failed (source : value) (t : rtype) (err : error) :
  custom prog ce source t = Failed err -> is_ErrNoConversionAvailable err = false.
Proof.
  unfold custom, try_ConverterTo.
  destruct (try_converters (registry_get (sourceConverters ce) (TypeOf source)) source t)
    eqn:H1; try discriminate.
  2: { intros H. injection H as <-. eapply try_converters_Failed; eauto. }
  destruct (asserts prog source ConverterTo).
  - destruct (try_converters [fun s t0 => ConvertTo_method prog s t0] source t)
      eqn:H2; try discriminate.
    2: { intros H. injection H as <-. eapply try_converters_Failed; eauto. }
    destruct (try_converters (registry_get (targetConverters ce) (Some t)) source t)
      eqn:H3; try discriminate.
    + apply try_interfaces_Failed.
    + intros H. injection H as <-. eapply try_converters_Failed; eauto.
  - destruct (try_converters (registry_get (targetConverters ce) (Some t)) source t)
      eqn:H3; try discriminate.
    + apply try_interfaces_Failed.
    + intros H. injection H as <-. eapply try_converters_Failed; eauto.
Qed.

Lemma builtin_not_sentinel (conv : value -> rtype -> outcome) (source : value)
  (st : option rtype) (t : rtype) :
  (forall x ty, conv x ty <> Err ErrNoConversionAvailable) ->
  builtin prog conv source st t <> Err ErrNoConversionAvailable.
Proof.
  intros Hconv H.
  destruct (builtin_cases conv source st t) as [E|[[e E]|[[w E]|[E|[E|E]]]]];
    rewrite E in H; try discriminate H.
  - destruct (kind2Exact_cases w t) as [[v [E' _]]|E']; rewrite E' in H; discriminate H.
  - destruct (convertSlice_cases conv source t) as [[l El]|[El|[x [ty [El _]]]]];
      rewrite El in H; try discriminate H. eapply Hconv; eauto.
  - destruct (convertMap_cases conv source t) as [[l El]|[El|[x [ty [El _]]]]];
      rewrite El in H; try discriminate H. eapply Hconv; eauto.
Qed.

Lemma Convert_not_sentinel (n : nat) :
  forall source t, Convert' n source t <> Err ErrNoConversionAvailable.
Proof.
  induction n as [|n IH]; intros source t; [discriminate|].
  rewrite Convert_S.
  destruct (type_eqb (TypeOf source) (Some t)); [discriminate|].
  destruct (custom prog ce source t) eqn:Hc; try discriminate.
  - apply builtin_not_sentinel. exact IH.
  - apply IH.
  - apply custom_Failed in Hc. intros H. injection H as ->. discriminate Hc.
Qed.

(** *** More fuel does not change a result *)

Section Extension.

Variables conv conv' : value -> rtype -> outcome.
Hypothesis extends : forall x ty, conv x ty <> OutOfFuel -> conv' x ty = conv x ty.

Lemma convertSlice_loop_ext (items : list value) (t et : rtype) (T : list value) :
  convertSlice_loop prog conv items t et T <> OutOfFuel ->
  convertSlice_loop prog conv' items t et T = convertSlice_loop prog conv items t et T.
Proof.
  revert T. induction items as [|x items IH]; intros T; simpl; [reflexivity|].
  destruct (conv x et) as [item|e| |] eqn:Hx; intros H;
    try (rewrite extends by (rewrite Hx; discriminate); rewrite Hx).
  - destruct (assignableTo ms item et); [apply IH; exact H | reflexivity].
  - reflexivity.
  - reflexivity.
  - contradiction.
Qed.

Lemma convertMap_loop_ext (entries : list (value * value)) (t kt et : rtype)
  (T : list (value * value)) :
  convertMap_loop prog conv entries t kt et T <> OutOfFuel ->
  convertMap_loop prog conv' entries t kt et T = convertMap_loop prog conv entries t kt et T.
Proof.
  revert T. induction entries as [|[k v] entries IH]; intros T; simpl; [reflexivity|].
  destruct (conv v et) as [value|e| |] eqn:Hv; intros H;
    try (rewrite (extends v) by (rewrite Hv; discriminate); rewrite Hv);
    try reflexivity; try contradiction.
  destruct (conv k kt) as [key|e| |] eqn:Hk;
    try (rewrite (extends k) by (rewrite Hk; discriminate); rewrite Hk);
    try reflexivity; try contradiction.
  destruct (assignableTo ms key kt && assignableTo ms value et && hashable key);
    [apply IH; exact H | reflexivity].
Qed.

Lemma builtin_ext (source : value) (st : option rtype) (t : rtype) :
  builtin prog conv source st t <> OutOfFuel ->
  builtin prog conv' source st t = builtin prog conv source st t.
Proof.
  unfold builtin.
  destruct (to_string prog source st t); [reflexivity|].
  destruct (from_string prog source st t); [reflexivity|].
  destruct st as [st|]; [|reflexivity].
  destruct (Kind_eqb (KindOf st) Slice && Kind_eqb (KindOf t) Slice).
  { unfold convertSlice. destruct source; try reflexivity.
    destruct (KindOf t); try reflexivity. destruct (Elem t); try reflexivity.
    apply convertSlice_loop_ext. }
  destruct (Kind_eqb (KindOf st) Map && Kind_eqb (KindOf t) Map).
  { unfold convertMap. destruct source; try reflexivity.
    destruct (KindOf t); try reflexivity. destruct (Key t); try reflexivity.
    destruct (Elem t); try reflexivity. apply convertMap_loop_ext. }
  reflexivity.
Qed.

End Extension.

Lemma Convert_more_fuel_S (n : nat) :
  forall source t, Convert' n source t <> OutOfFuel ->
                   Convert' (S n) source t = Convert' n source t.
Proof.
  induction n as [|n IH]; intros source t H; [contradiction H; reflexivity|].
  rewrite (Convert_S (S n)). rewrite (Convert_S n) in H |- *.
  destruct (type_eqb (TypeOf source) (Some t)); [reflexivity|].
  destruct (custom prog ce source t); try reflexivity.
  - apply builtin_ext; [exact IH | exact H].
  - apply IH. exact H.
Qed.

Lemma Convert_more_fuel (n m : nat) (source : value) (t : rtype) :
  (n <= m)%nat -> Convert' n source t <> OutOfFuel ->
  Convert' m source t = Convert' n source t.
Proof.
  intros Hle H. induction Hle as [|m Hle IH]; [reflexivity|].
  rewrite Convert_more_fuel_S; rewrite IH; auto.
Qed.

(** [Convert] has one result. *)
Lemma Converts_fun (source : value) (t : rtype) (r1 r2 : outcome) :
  Converts prog ce source t r1 -> Converts prog ce source t r2 -> r1 = r2.
Proof.
  intros [H1 [n1 E1]] [H2 [n2 E2]].
  destruct (Nat.le_ge_cases n1 n2) as [Hle|Hle].
  - rewrite <- E2, <- E1. symmetry. apply Convert_more_fuel; [exact Hle | congruence].
  - rewrite <- E2, <- E1. apply Convert_more_fuel; [exact Hle | congruence].
Qed.

Lemma Converts_at (source : value) (t : rtype) (r : outcome) (n : nat) :
  Convert' n source t = r -> r <> OutOfFuel -> Converts prog ce source t r.
Proof. intros H Hr. split; [exact Hr | exists n; exact H]. Qed.

End ConvertFacts.

(** ** Custom converters: the sequence of calls *)

Section Calls.

Variable prog : Program.
Variable ce : ConverterEngine.

Lemma run_app (pre post : list step) (source : value) (t : rtype) :
  run (pre ++ post) source t =
  match run pre source t with
  | Declined => run post source t
  | a => a
  end.
Proof.
  induction pre as [|[c|] pre IH]; simpl; try reflexivity.
  destruct (c source t) as [result [e|]]; [|reflexivity].
  destruct (is_ErrNoConversionAvailable e); [exact IH | reflexivity].
Qed.

Lemma run_map_Call (cs : list ConverterFunc) (source : value) (t : rtype) :
  run (map Call cs) source t = try_converters cs source t.
Proof.
  induction cs as [|c cs IH]; simpl; [reflexivity|].
  destruct (c source t) as [result [e|]]; [|reflexivity].
  destruct (is_ErrNoConversionAvailable e); [exact IH | reflexivity].
Qed.

Lemma run_interface_steps (itype : rtype) (cs : list ConverterFunc)
  (st : option rtype) (source : value) (t : rtype) :
  run (interface_steps prog st (itype, cs)) source t =
  try_interface prog cs itype st source t.
Proof.
  unfold interface_steps. induction cs as [|c cs IH]; simpl; [reflexivity|].
  destruct st as [st'|]; [|reflexivity].
  destruct (Implements (methodSet prog) st' itype) as [[|]|]; simpl;
    [|exact IH|reflexivity].
  destruct (c source t) as [result [e|]]; [|reflexivity].
  destruct (is_ErrNoConversionAvailable e); [exact IH | reflexivity].
Qed.

Lemma run_interfaces (r : registry) (st : option rtype) (source : value) (t : rtype) :
  run (flat_map (interface_steps prog st) r) source t =
  try_interfaces prog r st source t.
Proof.
  induction r as [|[itype cs] r IH]; [reflexivity|].
  cbn [flat_map try_interfaces]. rewrite run_app, run_interface_steps, IH.
  destruct (try_interface prog cs itype st source t); reflexivity.
Qed.

(** The custom strategies of [Convert] are a run over [calls]. *)
Lemma custom_run (source : value) (t : rtype) :
  custom prog ce source t = run (calls prog ce source t) source t.
Proof.
  unfold custom, calls, try_ConverterTo.
  rewrite !run_app, !run_map_Call, run_interfaces.
  destruct (try_converters (registry_get (sourceConverters ce) (TypeOf source)) source t);
    try reflexivity.
  destruct (asserts prog source ConverterTo); [|reflexivity].
  simpl. destruct (ConvertTo_method prog source t) as [result [e|]];
    [|reflexivity].
  destruct (is_ErrNoConversionAvailable e); reflexivity.
Qed.

Lemma run_declined (pre : list step) (source : value) (t : rtype) :
  Forall (declines source t) pre -> run pre source t = Declined.
Proof.
  induction 1 as [|[c|] pre Hc _ IH]; simpl; [reflexivity| |contradiction].
  destruct Hc as [x Hx]. rewrite Hx. exact IH.
Qed.

Lemma Convert_resume (n : nat) (source : value) (t : rtype) :
  type_eqb (TypeOf source) (Some t) = false ->
  Convert prog ce (S n) source t = resume prog ce n source t (custom prog ce source t).
Proof.
  intros H. rewrite Convert_S, H. unfold resume.
  destruct (custom prog ce source t); reflexivity.
Qed.

End Calls.

(** ** The type of the result *)

(** C1, as the code has it.  When [Convert] succeeds the result can be
    stored in a variable of the target type; its dynamic type is the target
    type itself whenever the target is not an interface type.  (For an
    interface target the result keeps its own dynamic type, which implements
    the interface.)  This holds along every path: identity, re-dispatch
    after a custom converter, string formatting and parsing, slices, maps
    and the reflection-based coercion. *)
Theorem Convert_result_type (prog : Program) (ce : ConverterEngine) (fuel : nat)
  (source : value) (targetType : rtype) (v : value) :
  Convert prog ce fuel source targetType = Ok v ->
  assignableTo (methodSet prog) v targetType = true
  /\ (KindOf targetType <> Interface -> TypeOf v = Some targetType).
Proof. intros H. exact (Convert_fits prog ce fuel source targetType v H). Qed.

Lemma Convert_result_type_witness :
  Convert test.plain New 2 (VString test.string_ "3") test.int32 = Ok (VInt test.int32 3)
  /\ TypeOf (VInt test.int32 3) = Some test.int32.
Proof.
  assert (H : Convert test.plain New 2 (VString test.string_ "3") test.int32
              = Ok (VInt test.int32 3)) by (vm_compute; reflexivity).
  split; [exact H|].
  apply (Convert_result_type test.plain New 2 (VString test.string_ "3")
                             test.int32 (VInt test.int32 3) H).
  discriminate.
Defined.

(** C1 as stated fails for an interface target: [Convert(5, interface{})]
    succeeds with the [int] it was given, whose dynamic type is [int] and
    not [interface{}]. *)
Lemma Convert_interface_target_counterexample :
  Convert test.plain New 1 (VInt test.int 5) test.any = Ok (VInt test.int 5)
  /\ TypeOf (VInt test.int 5) <> Some test.any.
Proof. split; [vm_compute; reflexivity | discriminate]. Qed.

(** ** The sentinel and the other errors of custom converters *)

(** C2.  Take any call of [Convert] that is not an identity conversion, and
    any converter [c] it gets to call: [c] stands in the sequence of calls
    after converters that all declined.  Then
    - whatever the fuel, [Convert] never returns [ErrNoConversionAvailable];
    - if [c] returns any other error, [Convert] returns exactly that error,
      whatever the converters after [c] and the built-in rules would do;
    - if [c] returns the sentinel, [Convert] goes on with the calls after
      [c], and with the built-in rules when these decline too. *)
Theorem converter_error_handling (prog : Program) (ce : ConverterEngine)
  (source : value) (targetType : rtype) (pre post : list step) (c : ConverterFunc) :
  type_eqb (TypeOf source) (Some targetType) = false ->
  calls prog ce source targetType = pre ++ Call c :: post ->
  Forall (declines source targetType) pre ->
  (forall fuel s t, Convert prog ce fuel s t <> Err ErrNoConversionAvailable)
  /\ (forall x err fuel,
        c source targetType = (x, Some err) ->
        err <> ErrNoConversionAvailable ->
        Convert prog ce (S fuel) source targetType = Err err)
  /\ (forall x fuel,
        c source targetType = (x, Some ErrNoConversionAvailable) ->
        Convert prog ce (S fuel) source targetType
        = resume prog ce fuel source targetType (run post source targetType)).
Proof.
  intros Hid Hcalls Hpre. split; [|split].
  - intros fuel s t. apply Convert_not_sentinel.
  - intros x err fuel Hc Herr.
    rewrite Convert_resume by exact Hid.
    rewrite custom_run, Hcalls, run_app, (run_declined pre) by exact Hpre.
    simpl. rewrite Hc.
    destruct err; try reflexivity. contradiction.
  - intros x fuel Hc.
    rewrite Convert_resume by exact Hid.
    rewrite custom_run, Hcalls, run_app, (run_declined pre) by exact Hpre.
    simpl. rewrite Hc. reflexivity.
Qed.

Lemma converter_error_handling_witness :
  calls test.plain test.Default (VFloat test.FloatAlias (test.f64 false 27 10)) test.string_
  = [] ++ Call test.roundFloatAlias :: []
  /\ Convert test.plain test.Default 1
             (VFloat test.FloatAlias (test.f64 false 27 10)) test.string_
     = Ok (VString test.string_ "2.7").
Proof.
  split; [reflexivity|].
  destruct (converter_error_handling test.plain test.Default
              (VFloat test.FloatAlias (test.f64 false 27 10)) test.string_
              [] [] test.roundFloatAlias eq_refl eq_refl (Forall_nil _))
    as [_ [_ H]].
  rewrite (H Nil 0%nat eq_refl). vm_compute. reflexivity.
Defined.

(** ** Precedence of source converters and re-dispatch *)

(** C3.  On the engine of the tests, with the rounding converter registered
    for [FloatAlias], [Convert(FloatAlias(2.7), int)] is [3], where the
    engine without it truncates to [2]; towards [IntAlias] the converter
    returns an [int], not yet the target type, and the engine finishes the
    conversion to [IntAlias(3)].  In general, as soon as a source converter
    returns a value, [Convert] is that value converted again to the target,
    before any built-in rule is looked at. *)
Theorem source_converter_precedence :
  Converts (test.program test.heap0) test.Default
           (VFloat test.FloatAlias (test.f64 false 27 10)) test.int
           (Ok (VInt test.int 3))
  /\ Converts (test.program test.heap0) New
              (VFloat test.FloatAlias (test.f64 false 27 10)) test.int
              (Ok (VInt test.int 2))
  /\ (test.roundFloatAlias (VFloat test.FloatAlias (test.f64 false 27 10)) test.IntAlias
      = (VInt test.int 3, None)
      /\ Converts (test.program test.heap0) test.Default
                  (VFloat test.FloatAlias (test.f64 false 27 10)) test.IntAlias
                  (Ok (VInt test.IntAlias 3)))
  /\ (forall prog ce source targetType result fuel,
        type_eqb (TypeOf source) (Some targetType) = false ->
        try_converters (registry_get (sourceConverters ce) (TypeOf source))
                       source targetType = Found result ->
        Convert prog ce (S fuel) source targetType
        = Convert prog ce fuel result targetType).
Proof.
  repeat split; try discriminate.
  - exists 2%nat. vm_compute. reflexivity.
  - exists 1%nat. vm_compute. reflexivity.
  - exists 2%nat. vm_compute. reflexivity.
  - intros prog ce source targetType result fuel Hid Hsrc.
    simpl. rewrite Hid, Hsrc. reflexivity.
Qed.

(** ** When nothing applies *)

(** For a source that is not nil: when the types differ, every custom
    converter declines, neither string block returns, the kinds are not two
    slices or two maps, and the source type is not convertible to the
    target, [Convert] returns [ErrIncompatibleType]. *)
Lemma Convert_no_strategy (prog : Program) (ce : ConverterEngine) (fuel : nat)
  (source : value) (st targetType : rtype) :
  TypeOf source = Some st ->
  st <> targetType ->
  custom prog ce source targetType = Declined ->
  to_string prog source (Some st) targetType = None ->
  from_string prog source (Some st) targetType = None ->
  Kind_eqb (KindOf st) Slice && Kind_eqb (KindOf targetType) Slice = false ->
  Kind_eqb (KindOf st) Map && Kind_eqb (KindOf targetType) Map = false ->
  ConvertibleTo (methodSet prog) st targetType = false ->
  Convert prog ce (S fuel) source targetType = Err ErrIncompatibleType.
Proof.
  intros Hst Hne Hc Hts Hfs Hsl Hmp Hcv.
  rewrite Convert_S, Hst. simpl.
  apply rtype_eqb_neq in Hne. rewrite Hne, Hc.
  unfold builtin. rewrite Hts, Hfs, Hsl, Hmp, Hcv. reflexivity.
Qed.

(** C4, at a nil source.  On an engine with no converters, [Convert(nil, t)]
    panics for every target [t] (the method call [sourceType.Kind()] on the
    nil [Type] that [reflect.TypeOf(nil)] returns); it does not return
    [ErrIncompatibleType]. *)
Theorem Convert_nil_source_panics :
  forall (prog : Program) (fuel : nat) (targetType : rtype),
    Convert prog New (S fuel) Nil targetType = Panic.
Proof.
  intros prog fuel targetType. simpl.
  unfold try_ConverterTo, asserts, builtin, to_string, from_string. simpl.
  destruct (KindOf targetType); reflexivity.
Qed.

(** ** Reinterpretation of negative integers *)

Lemma uintN_uintN_64 (w i : Z) : 0 <= w <= 64 -> uintN w (uintN 64 i) = uintN w i.
Proof.
  intros Hw. unfold uintN. apply Z.mod_mod_divide.
  exists (2 ^ (64 - w)). rewrite <- Z.pow_add_r by lia. f_equal. lia.
Qed.

Lemma SizeBits_range (k : Kind) : 0 <= SizeBits k <= 64.
Proof. destruct k; simpl; lia. Qed.

(** C10.  A negative signed integer converts to any unsigned integer type
    when no custom converter takes the call: the result is the source
    reduced modulo [2^w], [w] the width of the target. *)
Theorem Convert_negative_to_unsigned (prog : Program) (ce : ConverterEngine)
  (fuel : nat) (st targetType : rtype) (i : Z) :
  is_int (KindOf st) = true ->
  is_uint (KindOf targetType) = true ->
  i < 0 ->
  custom prog ce (VInt st i) targetType = Declined ->
  Convert prog ce (S fuel) (VInt st i) targetType
  = Ok (VUint targetType (i mod 2 ^ SizeBits (KindOf targetType))).
Proof.
  intros Hs Ht Hneg Hc.
  assert (Hne : rtype_eqb st targetType = false).
  { apply rtype_eqb_neq. intros ->. destruct (KindOf targetType); discriminate. }
  rewrite Convert_S. simpl. rewrite Hne, Hc.
  assert (Hop : convertOp (methodSet prog) targetType st = Some cvtInt).
  { unfold convertOp, convertOp_kind. rewrite Hs, Ht, orb_true_r. reflexivity. }
  unfold builtin, to_string, from_string, ConvertibleTo, kind2Exact, Value_Convert.
  simpl. rewrite Hop.
  assert (Hti : is_int (KindOf targetType) = false)
    by (destruct (KindOf targetType); try discriminate; reflexivity).
  replace (match KindOf targetType with String => _ | _ => None end)
    with (@None outcome) by (destruct (KindOf targetType); try discriminate; reflexivity).
  replace (match KindOf st with String => _ | _ => None end)
    with (@None outcome) by (destruct (KindOf st); try discriminate; reflexivity).
  replace (Kind_eqb (KindOf st) Slice) with false
    by (destruct (KindOf st); try discriminate; reflexivity).
  replace (Kind_eqb (KindOf st) Map) with false
    by (destruct (KindOf st); try discriminate; reflexivity).
  simpl. unfold makeInt. rewrite Hti.
  rewrite uintN_uintN_64 by apply SizeBits_range. reflexivity.
Qed.

Lemma Convert_negative_to_unsigned_witness :
  Convert test.plain New 1 (VInt test.int (-1)) test.uint
  = Ok (VUint test.uint (2 ^ 64 - 1)).
Proof.
  exact (Convert_negative_to_unsigned test.plain New 0 test.int test.uint (-1)
           eq_refl eq_refl eq_refl eq_refl).
Defined.

(** ** [Set] *)

(** C8, as the code has it.  A target that is not of pointer kind makes
    [Set] return [ErrExpectedPointer] with the heap untouched.  For a target
    that points to a variable, [Set] converts the source to the variable's
    type: an error of [Convert] is returned as it is and the heap is
    untouched; on success the converted value is stored in the variable and
    the result is nil.  (A nil pointer is of pointer kind but points to
    nothing: see the counterexample.) *)
Theorem Set_behaviour (prog : Program) (ce : ConverterEngine) (fuel : nat)
  (h : heap) (target source : value) :
  (option_map KindOf (TypeOf target) <> Some Ptr ->
   Set_ prog ce fuel h target source = (h, Returned (Some ErrExpectedPointer)))
  /\ (forall t l T,
        target = VPtr t (Some l) -> KindOf t = Ptr -> Elem t = Some T ->
        (forall err, Convert prog ce fuel source T = Err err ->
                     Set_ prog ce fuel h target source = (h, Returned (Some err)))
        /\ (forall v, Convert prog ce fuel source T = Ok v ->
                      Set_ prog ce fuel h target source
                      = (heap_set h l v, Returned None)
                      /\ heap_set h l v l = v)).
Proof.
  split.
  - intros Hk. unfold Set_.
    destruct (option_map KindOf (TypeOf target)) as [k|] eqn:E; [|reflexivity].
    destruct k; try reflexivity. contradiction Hk. reflexivity.
  - intros t l T -> Hk HT. unfold Set_. simpl. rewrite Hk, HT. split.
    + intros err ->. reflexivity.
    + intros v Hv. rewrite Hv.
      destruct (Convert_fits prog ce fuel source T v Hv) as [Ha _].
      rewrite Ha. split; [reflexivity|].
      unfold heap_set. rewrite Nat.eqb_refl. reflexivity.
Qed.

(** C8 as stated fails for a nil pointer: [Set(p, 4)] with [var p *int]
    (nil) neither returns [ErrExpectedPointer] nor converts anything; it panics (in
    [T.Type()], [T] being the zero [Value] that [Elem] gives for a nil
    pointer). *)
Lemma Set_nil_pointer_counterexample :
  Set_ test.plain New 1 test.heap0 (VPtr (PtrTo test.int) None) (VInt test.int 4)
  = (test.heap0, SetPanic).
Proof. reflexivity. Qed.

(** ** Termination without custom converters *)

Section Termination.

Variable prog : Program.

Lemma component_depth (x source : value) :
  component x source -> (depth x < depth source)%nat.
Proof.
  destruct source; simpl; try contradiction.
  - induction elems as [|y l IH]; simpl; [contradiction|].
    intros [->|H]; [lia|]. specialize (IH H). lia.
  - induction entries as [|[k v] l IH]; simpl.
    + intros [k [v [[] _]]].
    + intros [k' [v' [[E|H] Hx]]].
      * injection E as -> ->. destruct Hx as [->| ->]; lia.
      * assert (Hl : (depth x < S ((fix deepest (l0 : list (value * value)) : nat :=
                                      match l0 with
                                      | [] => O
                                      | (k0, x0) :: r =>
                                          Nat.max (Nat.max (depth k0) (depth x0)) (deepest r)
                                      end) l))%nat)
          by (apply IH; eauto).
        lia.
Qed.

Lemma component_no_ConverterTo (x source : value) :
  component x source -> no_ConverterTo prog source = true ->
  no_ConverterTo prog x = true.
Proof.
  destruct source; simpl; try contradiction; intros Hc Hn;
    apply andb_true_iff in Hn; destruct Hn as [_ Hn].
  - induction elems as [|y l IH]; simpl in *; [contradiction|].
    apply andb_true_iff in Hn. destruct Hn as [Hy Hl].
    destruct Hc as [->|H]; [exact Hy | apply IH; assumption].
  - induction entries as [|[k v] l IH]; simpl in *.
    + destruct Hc as [k [v [[] _]]].
    + apply andb_true_iff in Hn. destruct Hn as [Hkv Hl].
      apply andb_true_iff in Hkv. destruct Hkv as [Hk Hv].
      destruct Hc as [k' [v' [[E|H] Hx]]].
      * injection E as -> ->. destruct Hx as [->| ->]; assumption.
      * apply IH; [eauto | exact Hl].
Qed.

Lemma convertSlice_starved (conv : value -> rtype -> outcome) (source : value) (t : rtype) :
  convertSlice prog conv source t = OutOfFuel ->
  exists x ty, component x source /\ conv x ty = OutOfFuel.
Proof.
  unfold convertSlice. destruct source; try discriminate.
  destruct (KindOf t); try discriminate. destruct (Elem t) as [et|]; try discriminate.
  simpl. generalize (@nil value) as T.
  induction elems as [|x l IH]; intros T; simpl; [discriminate|].
  destruct (conv x et) as [item|e| |] eqn:Hx; try discriminate.
  - destruct (assignableTo (methodSet prog) item et); [|discriminate].
    intros H. destruct (IH _ H) as [y [ty [Hy E]]].
    exists y, ty. split; [right; exact Hy | exact E].
  - intros _. exists x, et. split; [left; reflexivity | exact Hx].
Qed.

Lemma convertMap_starved (conv : value -> rtype -> outcome) (source : value) (t : rtype) :
  convertMap prog conv source t = OutOfFuel ->
  exists x ty, component x source /\ conv x ty = OutOfFuel.
Proof.
  unfold convertMap. destruct source; try discriminate.
  destruct (KindOf t); try discriminate. destruct (Key t) as [kt|]; try discriminate.
  destruct (Elem t) as [et|]; try discriminate.
  simpl. generalize (@nil (value * value)) as T.
  induction entries as [|[k v] l IH]; intros T; simpl; [discriminate|].
  destruct (conv v et) as [value|e| |] eqn:Hv; try discriminate.
  - destruct (conv k kt) as [key|e| |] eqn:Hk; try discriminate.
    + destruct (assignableTo (methodSet prog) key kt
                && assignableTo (methodSet prog) value et && hashable key);
        [|discriminate].
      intros H. destruct (IH _ H) as [y [ty [[k' [v' [Hin Hy]]] E]]].
      exists y, ty. split; [|exact E]. exists k', v'. split; [right; exact Hin | exact Hy].
    + intros _. exists k, kt. split; [|exact Hk]. exists k, v.
      split; [left; reflexivity | left; reflexivity].
  - intros _. exists v, et. split; [|exact Hv]. exists k, v.
    split; [left; reflexivity | right; reflexivity].
Qed.

Lemma builtin_starved (conv : value -> rtype -> outcome) (source : value)
  (st : option rtype) (t : rtype) :
  builtin prog conv source st t = OutOfFuel ->
  exists x ty, component x source /\ conv x ty = OutOfFuel.
Proof.
  intros H.
  destruct (builtin_cases prog conv source st t) as [E|[[e E]|[[w E]|[E|[E|E]]]]];
    rewrite E in H; try discriminate H.
  - destruct (kind2Exact_cases prog w t) as [[v [E' _]]|E']; rewrite E' in H;
      discriminate H.
  - exact (convertSlice_starved conv source t H).
  - exact (convertMap_starved conv source t H).
Qed.

Lemma custom_New_Declined (source : value) (t : rtype) :
  asserts prog source ConverterTo = false -> custom prog New source t = Declined.
Proof.
  intros H. unfold custom, try_ConverterTo. simpl. rewrite H. reflexivity.
Qed.

Lemma no_ConverterTo_asserts (v : value) :
  no_ConverterTo prog v = true -> asserts prog v ConverterTo = false.
Proof.
  destruct v; simpl; intros H; try reflexivity;
    apply andb_true_iff in H; destruct H as [H _];
    apply negb_true_iff in H; exact H.
Qed.

Lemma Convert_New_enough_fuel (n : nat) :
  forall source t,
    (depth source <= n)%nat -> no_ConverterTo prog source = true ->
    Convert prog New (S n) source t <> OutOfFuel.
Proof.
  induction n as [|n IH]; intros source t Hd Hn; rewrite Convert_S;
    (destruct (type_eqb (TypeOf source) (Some t)); [discriminate|]);
    rewrite custom_New_Declined by (apply no_ConverterTo_asserts; exact Hn);
    intros H; apply builtin_starved in H; destruct H as [x [ty [Hx E]]].
  - apply component_depth in Hx. lia.
  - apply (IH x ty); [| |exact E].
    + apply component_depth in Hx. lia.
    + eapply component_no_ConverterTo; eauto.
Qed.

End Termination.

(** C9.  On an engine with empty registries, for a source none of whose
    nested components implements [ConverterTo], [Convert] terminates: a
    recursion depth of one more than the nesting depth of the source is
    enough, and every larger bound gives the same result. *)
Theorem Convert_terminates (prog : Program) (source : value) (targetType : rtype) :
  no_ConverterTo prog source = true ->
  exists r, r <> OutOfFuel
            /\ forall fuel, (depth source < fuel)%nat ->
                            Convert prog New fuel source targetType = r.
Proof.
  intros Hn. exists (Convert prog New (S (depth source)) source targetType).
  assert (H : Convert prog New (S (depth source)) source targetType <> OutOfFuel)
    by (apply Convert_New_enough_fuel; [lia | exact Hn]).
  split; [exact H|].
  intros fuel Hf. apply Convert_more_fuel; [lia | exact H].
Qed.

Lemma Convert_terminates_witness :
  exists r, r <> OutOfFuel
            /\ forall fuel,
                 (2 < fuel)%nat ->
                 Convert test.plain New fuel
                   (VSlice (SliceOf test.any)
                           [VSlice (SliceOf test.any) [VString test.string_ "1"];
                            VSlice (SliceOf test.any) [VInt test.int 2; VString test.string_ "3"]])
                   (SliceOf (SliceOf test.int)) = r.
Proof.
  exact (Convert_terminates test.plain
           (VSlice (SliceOf test.any)
                   [VSlice (SliceOf test.any) [VString test.string_ "1"];
                    VSlice (SliceOf test.any) [VInt test.int 2; VString test.string_ "3"]])
           (SliceOf (SliceOf test.int)) eq_refl).
Defined.

(** ** Slices *)

Section Slices.

Variable prog : Program.
Variable ce : ConverterEngine.

Local Abbreviation ms := (methodSet prog).

Lemma Kind_Slice_Elem (t : rtype) : KindOf t = Slice -> exists et, Elem t = Some et.
Proof.
  unfold KindOf, Elem. destruct (underlying t) as [b| | | | | |]; try discriminate.
  - destruct b; discriminate.
  - eauto.
Qed.

(** When every element converts, the loop appends the results in order. *)
Lemma convertSlice_loop_Ok (conv : value -> rtype -> outcome) (items rs : list value)
  (t et : rtype) (T : list value) :
  Forall2 (fun x r => conv x et = Ok r /\ assignableTo ms r et = true) items rs ->
  convertSlice_loop prog conv items t et T = Ok (VSlice t (T ++ rs)).
Proof.
  intros H. revert T. induction H as [|x r items rs [Hx Ha] _ IH]; intros T; simpl.
  - rewrite app_nil_r. reflexivity.
  - rewrite Hx, Ha, IH, <- app_assoc. reflexivity.
Qed.

(** A loop that succeeds has converted every element. *)
Lemma convertSlice_loop_inv (conv : value -> rtype -> outcome) (items : list value)
  (t et : rtype) (T : list value) (v : value) :
  convertSlice_loop prog conv items t et T = Ok v ->
  exists rs, v = VSlice t (T ++ rs) /\ Forall2 (fun x r => conv x et = Ok r) items rs.
Proof.
  revert T. induction items as [|x items IH]; intros T; simpl.
  - intros H. injection H as <-. exists []. rewrite app_nil_r. auto.
  - destruct (conv x et) as [item|e| |] eqn:Hx; try discriminate.
    destruct (assignableTo ms item et); [|discriminate].
    intros H. destruct (IH _ H) as [rs [-> Hrs]].
    exists (item :: rs). rewrite <- app_assoc. auto.
Qed.

(** The loop stops at the first element whose conversion does not succeed,
    with the outcome of that conversion. *)
Lemma convertSlice_loop_stop (conv : value -> rtype -> outcome)
  (pre post rs : list value) (x : value) (t et : rtype) (T : list value) :
  Forall2 (fun y r => conv y et = Ok r /\ assignableTo ms r et = true) pre rs ->
  (forall v, conv x et <> Ok v) ->
  convertSlice_loop prog conv (pre ++ x :: post) t et T = conv x et.
Proof.
  intros H Hx. revert T. induction H as [|y r pre rs [Hy Ha] _ IH]; intros T; simpl.
  - destruct (conv x et) as [v| | |]; try reflexivity. contradiction (Hx v). reflexivity.
  - rewrite Hy, Ha. apply IH.
Qed.

(** Conversions that each return with some fuel all return with one
    common fuel. *)
Lemma Converts_common_fuel (t : rtype) (xs : list value) (rs : list outcome) :
  Forall2 (fun x r => Converts prog ce x t r) xs rs ->
  exists n, forall m, (n <= m)%nat -> Forall2 (fun x r => Convert prog ce m x t = r) xs rs.
Proof.
  induction 1 as [|x r xs rs [Hr [n Hn]] _ [n' IH]].
  - exists 0%nat. constructor.
  - exists (Nat.max n n'). intros m Hm. constructor.
    + rewrite <- Hn. apply Convert_more_fuel; [lia | congruence].
    + apply IH. lia.
Qed.

Lemma Forall2_map_r {A B C : Type} (P : A -> C -> Prop) (f : B -> C)
  (xs : list A) (ys : list B) :
  Forall2 (fun x y => P x (f y)) xs ys <-> Forall2 P xs (map f ys).
Proof.
  split.
  - induction 1; simpl; constructor; auto.
  - revert ys. induction xs as [|x xs IH]; intros [|y ys] H; inversion H; subst;
      constructor; auto.
Qed.

(** One step of [Convert] on a slice that reaches [convertSlice]. *)
Lemma Convert_slice_step (n : nat) (st t et : rtype) (elems : list value) :
  st <> t -> KindOf st = Slice -> KindOf t = Slice -> Elem t = Some et ->
  custom prog ce (VSlice st elems) t = Declined ->
  Convert prog ce (S n) (VSlice st elems) t
  = convertSlice_loop prog (Convert prog ce n) elems t et [].
Proof.
  intros Hne Hs Ht He Hc. rewrite Convert_S. simpl.
  apply rtype_eqb_neq in Hne. rewrite Hne, Hc.
  unfold builtin, to_string, from_string, convertSlice.
  rewrite Hs, Ht, He. reflexivity.
Qed.

End Slices.

(** C5.  Take a source slice and a target slice type of a different type,
    on which no custom converter takes the call (so that [Convert] reaches
    its slice rule).  Then
    - if every element converts to the target's element type, [Convert]
      returns the slice of the target type holding these results, in order;
    - conversely every successful result is such a slice: it has the
      source's length and its element at each index is the conversion of
      the source's element at that index;
    - if the elements before some index convert and the element at that
      index fails with an error, [Convert] fails with that error. *)
Theorem slice_conversion (prog : Program) (ce : ConverterEngine)
  (st targetType et : rtype) (elems : list value) :
  st <> targetType ->
  KindOf st = Slice -> KindOf targetType = Slice -> Elem targetType = Some et ->
  custom prog ce (VSlice st elems) targetType = Declined ->
  (forall rs,
     Forall2 (fun x r => Converts prog ce x et (Ok r)) elems rs ->
     Converts prog ce (VSlice st elems) targetType (Ok (VSlice targetType rs)))
  /\ (forall v,
        Converts prog ce (VSlice st elems) targetType (Ok v) ->
        exists rs, v = VSlice targetType rs
                   /\ List.length rs = List.length elems
                   /\ Forall2 (fun x r => Converts prog ce x et (Ok r)) elems rs)
  /\ (forall pre x post rs err,
        elems = pre ++ x :: post ->
        Forall2 (fun y r => Converts prog ce y et (Ok r)) pre rs ->
        Converts prog ce x et (Err err) ->
        Converts prog ce (VSlice st elems) targetType (Err err)).
Proof.
  intros Hne Hs Ht He Hc. split; [|split].
  - intros rs Hrs. split; [discriminate|].
    apply (proj1 (Forall2_map_r (fun x r => Converts prog ce x et r) Ok elems rs)) in Hrs.
    destruct (Converts_common_fuel prog ce et elems (map Ok rs) Hrs) as [n Hn].
    exists (S n). rewrite (Convert_slice_step prog ce n st targetType et) by assumption.
    rewrite (convertSlice_loop_Ok prog (Convert prog ce n) elems rs); [reflexivity|].
    specialize (Hn n (le_n n)).
    apply (proj2 (Forall2_map_r (fun x r => Convert prog ce n x et = r) Ok elems rs)) in Hn.
    eapply Forall2_impl; [|exact Hn]. intros x r Hx. split; [exact Hx|].
    apply (Convert_fits prog ce n x et r Hx).
  - intros v [_ [n Hn]]. destruct n as [|n]; [discriminate Hn|].
    rewrite (Convert_slice_step prog ce n st targetType et) in Hn by assumption.
    apply convertSlice_loop_inv in Hn. destruct Hn as [rs [-> Hrs]].
    exists rs. split; [reflexivity|]. split.
    + symmetry. eapply Forall2_length; eauto.
    + eapply Forall2_impl; [|exact Hrs]. intros x r Hx.
      split; [discriminate | exists n; exact Hx].
  - intros pre x post rs err -> Hpre [_ [k Hk]].
    apply (proj1 (Forall2_map_r (fun x r => Converts prog ce x et r) Ok pre rs)) in Hpre.
    destruct (Converts_common_fuel prog ce et pre (map Ok rs) Hpre) as [n Hn].
    split; [discriminate|]. exists (S (Nat.max n k)).
    rewrite (Convert_slice_step prog ce _ st targetType et) by assumption.
    assert (Hx : Convert prog ce (Nat.max n k) x et = Err err).
    { rewrite <- Hk. apply Convert_more_fuel; [lia | congruence]. }
    rewrite (convertSlice_loop_stop prog (Convert prog ce (Nat.max n k)) pre post rs).
    + exact Hx.
    + specialize (Hn (Nat.max n k) (Nat.le_max_l n k)).
      apply (proj2 (Forall2_map_r (fun x r => Convert prog ce (Nat.max n k) x et = r)
                                  Ok pre rs)) in Hn.
      eapply Forall2_impl; [|exact Hn]. intros y r Hy. split; [exact Hy|].
      apply (Convert_fits prog ce _ y et r Hy).
    + intros v. rewrite Hx. discriminate.
Qed.

Lemma slice_conversion_witness :
  Converts test.plain New
           (VSlice (SliceOf test.any)
                   [VString test.string_ "1"; VString test.string_ "2";
                    VString test.string_ "3"])
           (SliceOf test.int)
           (Ok (VSlice (SliceOf test.int)
                       [VInt test.int 1; VInt test.int 2; VInt test.int 3])).
Proof.
  assert (Hne : SliceOf test.any <> SliceOf test.int) by discriminate.
  refine (proj1 (slice_conversion test.plain New (SliceOf test.any) (SliceOf test.int)
                   test.int _ Hne eq_refl eq_refl eq_refl eq_refl) _ _).
  constructor; [split; [discriminate | exists 1%nat; reflexivity]|].
  constructor; [split; [discriminate | exists 1%nat; reflexivity]|].
  constructor; [split; [discriminate | exists 1%nat; reflexivity]|].
  constructor.
Defined.

(** ** Map keys *)





Lemma rtype_eqb_sym (a b : rtype) : rtype_eqb a b = rtype_eqb b a.
Proof.
  destruct (rtype_eqb a b) eqn:E.
  - apply rtype_eqb_eq in E. subst. symmetry. apply rtype_eqb_refl.
  - symmetry. apply rtype_eqb_neq. apply rtype_eqb_neq in E. congruence.
Qed.





(** ** Maps *)

Section Maps.

Variable prog : Program.
Variable ce : ConverterEngine.

Local Abbreviation ms := (methodSet prog).





Lemma Kind_Map_Key_Elem (t : rtype) :
  KindOf t = Map -> exists kt et, Key t = Some kt /\ Elem t = Some et.
Proof.
  unfold KindOf, Key, Elem. destruct (underlying t) as [b| | | | | |]; try discriminate.
  - destruct b; discriminate.
  - eauto.
Qed.

(** One step of [Convert] on a map that reaches [convertMap]. *)
Lemma Convert_map_step (n : nat) (st t kt et : rtype) (entries : list (value * value)) :
  st <> t -> KindOf st = Map -> KindOf t = Map ->
  Key t = Some kt -> Elem t = Some et ->
  custom prog ce (VMap st entries) t = Declined ->
  Convert prog ce (S n) (VMap st entries) t
  = convertMap_loop prog (Convert prog ce n) entries t kt et [].
Proof.
  intros Hne Hs Ht Hk He Hc. rewrite Convert_S. simpl.
  apply rtype_eqb_neq in Hne. rewrite Hne, Hc.
  unfold builtin, to_string, from_string, convertMap.
  rewrite Hs, Ht, Hk, He. reflexivity.
Qed.


End Maps.



(** ** [strconv]: formatting and parsing integers and booleans *)

Section Digits.

Import strconv.














End Digits.

(** ** The string round trip *)

Section RoundTrip.

Variable prog : Program.
Variable ce : ConverterEngine.

Local Abbreviation ms := (methodSet prog).
Local Abbreviation string_t := (Basic Tstring).

Lemma KindOf_basic (t : rtype) (b : basic) :
  KindOf t = basic_kind b -> underlying t = Basic b.
Proof.
  unfold KindOf. destruct (underlying t) as [b'| | | | | |]; destruct b;
    try discriminate; destruct b'; try discriminate; reflexivity.
Qed.


Lemma Kind_eqb_refl (k : Kind) : Kind_eqb k k = true.
Proof. destruct k; reflexivity. Qed.




Lemma intN_uintN_64 (w i : Z) : 0 < w <= 64 -> in_intN w i -> intN w (uintN 64 i) = i.
Proof.
  intros Hw [Hlo Hhi]. unfold intN, uintN.
  assert (Hpow : 2 ^ w = 2 * 2 ^ (w - 1)).
  { rewrite <- Z.pow_succ_r by lia. f_equal. lia. }
  assert (Hpos : 0 < 2 ^ (w - 1)) by (apply Z.pow_pos_nonneg; lia).
  assert (Hdiv : (2 ^ w | 2 ^ 64)).
  { exists (2 ^ (64 - w)). rewrite <- Z.pow_add_r by lia. f_equal. lia. }
  rewrite <- (Z.mod_mod_divide (i mod 2 ^ 64 + 2 ^ (w - 1)) (2 ^ 64) (2 ^ w) Hdiv).
  rewrite Zplus_mod_idemp_l.
  rewrite (Z.mod_mod_divide (i + 2 ^ (w - 1)) (2 ^ 64) (2 ^ w) Hdiv).
  rewrite Z.mod_small by lia. lia.
Qed.

Lemma kind2Exact_int (i : Z) (t : rtype) :
  is_int (KindOf t) = true -> in_intN (SizeBits (KindOf t)) i ->
  kind2Exact prog (VInt (Basic Tint64) i) t = Ok (VInt t i).
Proof.
  intros Hk Hi. unfold kind2Exact, Value_Convert, convertOp, convertOp_kind. simpl.
  rewrite Hk. simpl. unfold makeInt. rewrite Hk.
  rewrite intN_uintN_64; [reflexivity | | exact Hi].
  destruct (KindOf t); try discriminate; simpl; lia.
Qed.

Lemma kind2Exact_uint (u : Z) (t : rtype) :
  is_uint (KindOf t) = true -> in_uintN (SizeBits (KindOf t)) u ->
  kind2Exact prog (VUint (Basic Tuint64) u) t = Ok (VUint t u).
Proof.
  intros Hk Hu. unfold kind2Exact, Value_Convert, convertOp, convertOp_kind. simpl.
  rewrite Hk, orb_true_r. simpl. unfold makeInt.
  replace (is_int (KindOf t)) with false
    by (destruct (KindOf t); try discriminate; reflexivity).
  unfold uintN. rewrite Z.mod_small by exact Hu. reflexivity.
Qed.


Lemma SizeBits_positive (t : rtype) :
  is_int (KindOf t) = true \/ is_uint (KindOf t) = true ->
  0 < SizeBits (KindOf t) <= 64.
Proof. destruct (KindOf t); simpl; intros [H|H]; try discriminate; lia. Qed.



End RoundTrip.




(** ** Rows of the test table of [convert_test.go]

    Each row converts a source to the type of the expected result, on the
    engine with the two converters the test registers. *)

Section TestTable.

Let run (source : value) (targetType : rtype) : outcome :=
  Convert (test.program test.heap0) test.Default 4 source targetType.

Example row_string_to_int8 :
  run (VString test.string_ "-1") test.int8 = Ok (VInt test.int8 (-1)).
Proof. vm_compute. reflexivity. Qed.

Example row_float32_to_string :
  run (VFloat test.float32 (test.f32 false 92 10)) test.string_
  = Ok (VString test.string_ "9.2").
Proof. vm_compute. reflexivity. Qed.

Example row_string_to_float64 :
  run (VString test.string_ "-19.3") test.float64
  = Ok (VFloat test.float64 (test.f64 true 193 10)).
Proof. vm_compute. reflexivity. Qed.

Example row_unparseable :
  run (VString test.string_ "XYZ") test.uint16
  = Err (ErrNum (strconv.mkNumError "ParseUint" "XYZ" strconv.ErrSyntax)).
Proof. vm_compute. reflexivity. Qed.

Example row_bool_to_int : run (VBool test.bool_ true) test.int = Err ErrIncompatibleType.
Proof. vm_compute. reflexivity. Qed.

Example row_struct_to_int :
  run (VStruct test.ConversionTest [Nil; Nil; Nil]) test.int = Err ErrIncompatibleType.
Proof. vm_compute. reflexivity. Qed.

Example row_int_to_float32 :
  run (VInt test.int 5) test.float32 = Ok (VFloat test.float32 (float.of_Z 32 5)).
Proof. vm_compute. reflexivity. Qed.

Example row_bytes_to_string :
  run (VSlice (SliceOf test.uint8) (map (VUint test.uint8) [65; 66; 67])) test.string_
  = Ok (VString test.string_ "ABC").
Proof. vm_compute. reflexivity. Qed.

Example row_alias_to_string :
  run (VString test.StringAlias "hola") test.string_ = Ok (VString test.string_ "hola").
Proof. vm_compute. reflexivity. Qed.

Example row_Stringer :
  run (VPtr (PtrTo test.TestStruct) (Some O)) test.StringAlias
  = Ok (VString test.StringAlias "(5, 7)").
Proof. vm_compute. reflexivity. Qed.

Example row_ConverterTo :
  run (VPtr (PtrTo test.TestStruct) (Some O)) test.FloatAlias
  = Ok (VFloat test.FloatAlias (float.sqrt64 (float.of_Z 64 74))).
Proof. vm_compute. reflexivity. Qed.

Example row_ConverterTo_declines :
  run (VPtr (PtrTo test.TestStruct) (Some O)) test.int = Err ErrIncompatibleType.
Proof. vm_compute. reflexivity. Qed.

Example row_target_converter :
  run (VSlice (SliceOf test.uint8) (map (VUint test.uint8) [0; 0; 0; 1; 0; 0; 0; 2]))
      test.TestStruct
  = Ok (VStruct test.TestStruct [VInt test.int 1; VInt test.int 2]).
Proof. vm_compute. reflexivity. Qed.

Example row_float64_to_float32 :
  run (VFloat test.float64 (test.f64 false 55 10)) test.float32
  = Ok (VFloat test.float32 (test.f32 false 55 10)).
Proof. vm_compute. reflexivity. Qed.

(** The rows with a nil map value, which the table expects to convert to
    the zero value of the element type, panic. *)
Example row_map_with_nil_value :
  run (VMap (MapOf test.string_ test.any)
            [(VString test.string_ "uno", VInt test.int 1);
             (VString test.string_ "nil", Nil)])
      (MapOf test.string_ test.int)
  = Panic.
Proof. vm_compute. reflexivity. Qed.

(** [Set(x, 4)] with [var x int]: the target is not a pointer. *)
Example Set_expects_pointer :
  Set_ (test.program test.heap0) test.Default 4 test.heap0 (VInt test.int 0) (VInt test.int 4)
  = (test.heap0, Returned (Some ErrExpectedPointer)).
Proof. reflexivity. Qed.

(** A [uintptr] is not among the kinds the string rule formats: it reaches
    the reflection-based conversion, which reads it as a code point. *)
Example uintptr_to_string :
  run (VUint (Basic Tuintptr) 65) test.string_ = Ok (VString test.string_ "A").
Proof. vm_compute. reflexivity. Qed.

(** A source converter that fails ends the conversion, although the next
    converter registered for the type would succeed. *)
Example converter_error_aborts :
  Convert test.plain
          (AddSourceConverter
             (AddSourceConverter New test.int (fun _ _ => (Nil, Some (ErrOther "boom"))))
             test.int (fun _ _ => (VString test.string_ "fine", None)))
          3 (VInt test.int 1) test.string_
  = Err (ErrOther "boom").
Proof. vm_compute. reflexivity. Qed.

End TestTable.

(** * Further properties of the engine *)

(** ** Registration *)

Lemma registry_get_nil_Type (r : registry) : registry_get r None = [].
Proof. induction r as [|[k cf] r IH]; simpl; [reflexivity | exact IH]. Qed.

(** Looking a key up after an append: the appended function is last in the
    list of its key, and the other keys keep their lists. *)
Lemma registry_get_append (r : registry) (t t' : rtype) (f : ConverterFunc) :
  registry_get (registry_append r t f) (Some t') =
  if rtype_eqb t t' then registry_get r (Some t) ++ [f] else registry_get r (Some t').
Proof.
  induction r as [|[k cf] r IH]; simpl.
  - destruct (rtype_eqb t t'); reflexivity.
  - destruct (rtype_eqb k t) eqn:Hkt; simpl.
    + apply rtype_eqb_eq in Hkt. subst k.
      destruct (rtype_eqb t t'); reflexivity.
    + rewrite IH. destruct (rtype_eqb k t') eqn:Hkt'; [|reflexivity].
      apply rtype_eqb_eq in Hkt'. subst k. rewrite rtype_eqb_sym, Hkt. reflexivity.
Qed.

(** [AddSourceConverter]: afterwards the functions registered for the type
    are the ones registered before, in their order, followed by the new
    one; the functions of every other source type, the target converters
    and the interface converters are as before. *)
Theorem AddSourceConverter_lookup (ce : ConverterEngine) (sourceType : rtype)
  (f : ConverterFunc) :
  let ce' := AddSourceConverter ce sourceType f in
  registry_get (sourceConverters ce') (Some sourceType)
  = registry_get (sourceConverters ce) (Some sourceType) ++ [f]
  /\ (forall t, t <> sourceType ->
                registry_get (sourceConverters ce') (Some t)
                = registry_get (sourceConverters ce) (Some t))
  /\ targetConverters ce' = targetConverters ce
  /\ interfaceConverters ce' = interfaceConverters ce.
Proof.
  simpl. repeat split.
  - rewrite registry_get_append, rtype_eqb_refl. reflexivity.
  - intros t Hne. rewrite registry_get_append.
    replace (rtype_eqb sourceType t) with false; [reflexivity|].
    symmetry. apply rtype_eqb_neq. congruence.
Qed.

(** [AddTargetConverter]: the same for the target converters, the source
    and interface converters being as before. *)
Theorem AddTargetConverter_lookup (ce : ConverterEngine) (targetType : rtype)
  (f : ConverterFunc) :
  let ce' := AddTargetConverter ce targetType f in
  registry_get (targetConverters ce') (Some targetType)
  = registry_get (targetConverters ce) (Some targetType) ++ [f]
  /\ (forall t, t <> targetType ->
                registry_get (targetConverters ce') (Some t)
                = registry_get (targetConverters ce) (Some t))
  /\ sourceConverters ce' = sourceConverters ce
  /\ interfaceConverters ce' = interfaceConverters ce.
Proof.
  simpl. repeat split.
  - rewrite registry_get_append, rtype_eqb_refl. reflexivity.
  - intros t Hne. rewrite registry_get_append.
    replace (rtype_eqb targetType t) with false; [reflexivity|].
    symmetry. apply rtype_eqb_neq. congruence.
Qed.

(** [AddInterfaceConverter] panics exactly when the type is not an
    interface type; otherwise it appends the function to the list of that
    interface type and leaves everything else as before. *)
Theorem AddInterfaceConverter_lookup (ce : ConverterEngine) (interfaceType : rtype)
  (f : ConverterFunc) :
  (KindOf interfaceType <> Interface -> AddInterfaceConverter ce interfaceType f = None)
  /\ (KindOf interfaceType = Interface ->
      exists ce',
        AddInterfaceConverter ce interfaceType f = Some ce'
        /\ registry_get (interfaceConverters ce') (Some interfaceType)
           = registry_get (interfaceConverters ce) (Some interfaceType) ++ [f]
        /\ (forall t, t <> interfaceType ->
                      registry_get (interfaceConverters ce') (Some t)
                      = registry_get (interfaceConverters ce) (Some t))
        /\ sourceConverters ce' = sourceConverters ce
        /\ targetConverters ce' = targetConverters ce).
Proof.
  unfold AddInterfaceConverter. split.
  - intros Hk. destruct (KindOf interfaceType); try reflexivity. contradiction Hk.
    reflexivity.
  - intros ->. eexists. split; [reflexivity|]. simpl. repeat split.
    + rewrite registry_get_append, rtype_eqb_refl. reflexivity.
    + intros t Hne. rewrite registry_get_append.
      replace (rtype_eqb interfaceType t) with false; [reflexivity|].
      symmetry. apply rtype_eqb_neq. congruence.
Qed.

(** ** A converter that always declines *)

Section Pointwise.

Variable prog : Program.
Variables conv conv' : value -> rtype -> outcome.
Hypothesis same : forall x ty, conv' x ty = conv x ty.

Lemma convertSlice_loop_pointwise (items : list value) (t et : rtype) (T : list value) :
  convertSlice_loop prog conv' items t et T = convertSlice_loop prog conv items t et T.
Proof.
  revert T. induction items as [|x items IH]; intros T; simpl; [reflexivity|].
  rewrite same. destruct (conv x et); try reflexivity.
  destruct (assignableTo (methodSet prog) v et); [apply IH | reflexivity].
Qed.

Lemma convertMap_loop_pointwise (entries : list (value * value)) (t kt et : rtype)
  (T : list (value * value)) :
  convertMap_loop prog conv' entries t kt et T = convertMap_loop prog conv entries t kt et T.
Proof.
  revert T. induction entries as [|[k v] entries IH]; intros T; simpl; [reflexivity|].
  rewrite !same. destruct (conv v et); try reflexivity.
  destruct (conv k kt); try reflexivity.
  destruct (assignableTo (methodSet prog) v1 kt
            && assignableTo (methodSet prog) v0 et && hashable v1);
    [apply IH | reflexivity].
Qed.

Lemma builtin_pointwise (source : value) (st : option rtype) (t : rtype) :
  builtin prog conv' source st t = builtin prog conv source st t.
Proof.
  unfold builtin, convertSlice, convertMap.
  destruct (to_string prog source st t); [reflexivity|].
  destruct (from_string prog source st t); [reflexivity|].
  destruct st as [st|]; [|reflexivity].
  destruct (Kind_eqb (KindOf st) Slice && Kind_eqb (KindOf t) Slice).
  { destruct source; try reflexivity. destruct (KindOf t); try reflexivity.
    destruct (Elem t); try reflexivity. apply convertSlice_loop_pointwise. }
  destruct (Kind_eqb (KindOf st) Map && Kind_eqb (KindOf t) Map).
  { destruct source; try reflexivity. destruct (KindOf t); try reflexivity.
    destruct (Key t); try reflexivity. destruct (Elem t); try reflexivity.
    apply convertMap_loop_pointwise. }
  reflexivity.
Qed.

End Pointwise.

Lemma try_converters_app (cs cs' : list ConverterFunc) (source : value) (t : rtype) :
  try_converters (cs ++ cs') source t =
  match try_converters cs source t with
  | Declined => try_converters cs' source t
  | a => a
  end.
Proof.
  induction cs as [|c cs IH]; simpl; [reflexivity|].
  destruct (c source t) as [result [e|]]; [|reflexivity].
  destruct (is_ErrNoConversionAvailable e); [exact IH | reflexivity].
Qed.

(** The converters found for a type after a declining function was
    appended run like the ones found before. *)
Lemma try_converters_append_declining (r : registry) (key : rtype) (f : ConverterFunc)
  (st : option rtype) (source : value) (t : rtype) :
  (exists x, f source t = (x, Some ErrNoConversionAvailable)) ->
  try_converters (registry_get (registry_append r key f) st) source t
  = try_converters (registry_get r st) source t.
Proof.
  intros [x Hf]. destruct st as [st|]; [|rewrite !registry_get_nil_Type; reflexivity].
  rewrite registry_get_append. destruct (rtype_eqb key st) eqn:E; [|reflexivity].
  apply rtype_eqb_eq in E. subst st. rewrite try_converters_app. simpl. rewrite Hf.
  simpl. destruct (try_converters (registry_get r (Some key)) source t); reflexivity.
Qed.

(** Registering, as a source or as a target converter for any type, a
    function that declines every call changes no conversion. *)
Theorem declining_converter_changes_nothing (prog : Program) (ce : ConverterEngine)
  (key : rtype) (f : ConverterFunc) :
  (forall s t, exists x, f s t = (x, Some ErrNoConversionAvailable)) ->
  forall fuel source targetType,
    Convert prog (AddSourceConverter ce key f) fuel source targetType
    = Convert prog ce fuel source targetType
    /\ Convert prog (AddTargetConverter ce key f) fuel source targetType
       = Convert prog ce fuel source targetType.
Proof.
  intros Hf fuel. induction fuel as [|fuel IH]; intros source t; [split; reflexivity|].
  rewrite !Convert_S.
  destruct (type_eqb (TypeOf source) (Some t)); [split; reflexivity|].
  assert (Hs : custom prog (AddSourceConverter ce key f) source t = custom prog ce source t).
  { unfold custom. simpl. rewrite try_converters_append_declining by apply Hf.
    reflexivity. }
  assert (Ht : custom prog (AddTargetConverter ce key f) source t = custom prog ce source t).
  { unfold custom. simpl. rewrite try_converters_append_declining by apply Hf.
    reflexivity. }
  rewrite Hs, Ht.
  destruct (custom prog ce source t); try (split; reflexivity).
  - split; apply builtin_pointwise; intros x ty; apply IH.
  - apply IH.
Qed.

Lemma declining_converter_changes_nothing_witness :
  Convert test.plain
          (AddSourceConverter New test.int (fun _ _ => (Nil, Some ErrNoConversionAvailable)))
          2 (VInt test.int 7) test.string_
  = Convert test.plain New 2 (VInt test.int 7) test.string_.
Proof.
  refine (proj1 (declining_converter_changes_nothing test.plain New test.int
                   (fun _ _ => (Nil, Some ErrNoConversionAvailable)) _
                   2%nat (VInt test.int 7) test.string_)).
  intros s t. exists Nil. reflexivity.
Defined.

(** ** Converting a result again *)

(** Converting to the type a value already has returns the value itself,
    whatever the converters registered (none is called).  So a result of
    [Convert] for a target that is not an interface type converts to that
    target again as itself: [Convert] is idempotent. *)
Theorem Convert_idempotent (prog : Program) (ce : ConverterEngine) (fuel fuel' : nat)
  (source : value) (targetType : rtype) (v : value) :
  KindOf targetType <> Interface ->
  Convert prog ce fuel source targetType = Ok v ->
  Convert prog ce (S fuel') v targetType = Ok v.
Proof.
  intros Hk H. destruct (Convert_fits prog ce fuel source targetType v H) as [_ Ht].
  simpl. rewrite (Ht Hk). simpl. rewrite rtype_eqb_refl. reflexivity.
Qed.

Lemma Convert_idempotent_witness :
  Convert (test.program test.heap0) test.Default 1
          (VInt test.int 3) test.int
  = Ok (VInt test.int 3).
Proof.
  assert (Hk : KindOf test.int <> Interface) by discriminate.
  assert (H : Convert (test.program test.heap0) test.Default 2
                      (VFloat test.FloatAlias (test.f64 false 27 10)) test.int
              = Ok (VInt test.int 3)) by (vm_compute; reflexivity).
  exact (Convert_idempotent (test.program test.heap0) test.Default 2 0
           (VFloat test.FloatAlias (test.f64 false 27 10)) test.int (VInt test.int 3)
           Hk H).
Defined.

(** ** [Set] and the other variables *)



(** When [Set] returns nil, its target was a pointer to a variable, and the
    variable now holds a value that may be stored in it: of the variable's
    type exactly, unless that is an interface type, which the value then
    implements. *)
Theorem Set_stores_well_typed (prog : Program) (ce : ConverterEngine) (fuel : nat)
  (h h' : heap) (target source : value) :
  Set_ prog ce fuel h target source = (h', Returned None) ->
  exists t l T,
    target = VPtr t (Some l) /\ Elem t = Some T
    /\ Convert prog ce fuel source T = Ok (h' l)
    /\ assignableTo (methodSet prog) (h' l) T = true
    /\ (KindOf T <> Interface -> TypeOf (h' l) = Some T).
Proof.
  unfold Set_.
  destruct (option_map KindOf (TypeOf target)) as [k|]; [|discriminate].
  destruct k; try discriminate.
  destruct target; try discriminate. destruct p as [l|]; [|discriminate].
  destruct (Elem t) as [T|] eqn:HT; [|discriminate].
  destruct (Convert prog ce fuel source T) as [v| | |] eqn:Hc; try discriminate.
  destruct (assignableTo (methodSet prog) v T) eqn:Ha; [|discriminate].
  intros H. injection H as <-.
  exists t, l, T. unfold heap_set. rewrite Nat.eqb_refl.
  destruct (Convert_fits prog ce fuel source T v Hc) as [_ Ht].
  split; [reflexivity|]. split; [exact HT|]. split; [exact Hc|].
  split; [exact Ha | exact Ht].
Qed.

Lemma Set_stores_well_typed_witness :
  exists t l T,
    VPtr (PtrTo test.int) (Some 3%nat) = VPtr t (Some l) /\ Elem t = Some T
    /\ Convert test.plain New 2 (VString test.string_ "4") T
       = Ok (heap_set test.heap0 3%nat (VInt test.int 4) l)
    /\ assignableTo (methodSet test.plain)
                    (heap_set test.heap0 3%nat (VInt test.int 4) l) T = true
    /\ (KindOf T <> Interface ->
        TypeOf (heap_set test.heap0 3%nat (VInt test.int 4) l) = Some T).
Proof.
  exact (Set_stores_well_typed test.plain New 2 test.heap0
           (heap_set test.heap0 3%nat (VInt test.int 4))
           (VPtr (PtrTo test.int) (Some 3%nat)) (VString test.string_ "4") eq_refl).
Defined.

(** ** Strings to integers *)

Section ParseBounds.

Import strconv.

Lemma uintN_range (w z : Z) : 0 <= w -> 0 <= uintN w z < 2 ^ w.
Proof. intros Hw. unfold uintN. apply Z.mod_pos_bound. apply Z.pow_pos_nonneg; lia. Qed.

(** The digit loop returns a number between what it started from and its
    bound. *)
Lemma parseUint_loop_bounds (s : string) (maxVal : Z) :
  forall n m, 0 <= n <= maxVal -> parseUint_loop s n maxVal = inl m -> 0 <= m <= maxVal.
Proof.
  induction s as [|c s IH]; intros n m Hn; cbn [parseUint_loop].
  - intros H. injection H as <-. exact Hn.
  - destruct (digit_val c) as [k|]; [|discriminate].
    destruct (maxUint64 / 10 + 1 <=? n); [discriminate|].
    destruct (uintN 64 (n * 10 + k) <? n * 10) eqn:E1; [discriminate|].
    destruct (maxVal <? uintN 64 (n * 10 + k)) eqn:E2; [discriminate|].
    simpl. apply IH. apply Z.ltb_ge in E2.
    pose proof (uintN_range 64 (n * 10 + k)). lia.
Qed.

Lemma parseUint_bounds (s : string) (bits u : Z) :
  0 < bits -> parseUint s bits = inl u -> 0 <= u < 2 ^ bits.
Proof.
  intros Hb. unfold parseUint, bitSize_or_IntSize.
  replace (bits =? 0) with false by (symmetry; apply Z.eqb_neq; lia).
  assert (Hp : 0 < 2 ^ bits) by (apply Z.pow_pos_nonneg; lia).
  destruct s as [|c s]; [discriminate|].
  intros H. apply parseUint_loop_bounds in H; lia.
Qed.

(** [ParseUint] returns numbers of [bitSize] bits only. *)
Lemma ParseUint_in_range (s : string) (bits u : Z) :
  0 < bits -> ParseUint s bits = inl u -> in_uintN bits u.
Proof.
  intros Hb. unfold ParseUint. destruct (parseUint s bits) as [n|e] eqn:E; [|discriminate].
  intros H. injection H as <-. apply (parseUint_bounds s bits n Hb E).
Qed.

(** [ParseInt] returns numbers of [bitSize] bits only. *)
Lemma ParseInt_in_range (s : string) (bits i : Z) :
  0 < bits -> ParseInt s bits = inl i -> in_intN bits i.
Proof.
  intros Hb. unfold ParseInt. destruct s as [|c s]; [discriminate|].
  assert (Hpos : 0 < 2 ^ (bits - 1)) by (apply Z.pow_pos_nonneg; lia).
  assert (Hbits : bitSize_or_IntSize bits = bits).
  { unfold bitSize_or_IntSize.
    replace (bits =? 0) with false by (symmetry; apply Z.eqb_neq; lia). reflexivity. }
  rewrite Hbits.
  destruct (if Ascii.eqb c "+" then (false, s)
            else if Ascii.eqb c "-" then (true, s) else (false, String.String c s))
    as [neg s'].
  destruct (parseUint s' bits) as [un|[|]] eqn:E; try discriminate.
  apply parseUint_bounds in E; [|exact Hb].
  destruct neg; simpl.
  - destruct (2 ^ (bits - 1) <? un) eqn:Hc; [discriminate|].
    apply Z.ltb_ge in Hc. intros H. injection H as <-. unfold in_intN. lia.
  - destruct (2 ^ (bits - 1) <=? un) eqn:Hc; [discriminate|].
    apply Z.leb_gt in Hc. intros H. injection H as <-. unfold in_intN. lia.
Qed.

End ParseBounds.

(** A string converts to a signed integer type as [strconv.ParseInt] reads
    it for the width of the target: the result is that very number, which
    fits the target (no wrap-around), and a text that is no number or is out
    of the target's range gives the error of [ParseInt] itself. *)
Theorem Convert_string_to_int (prog : Program) (ce : ConverterEngine) (fuel : nat)
  (st targetType : rtype) (s : string) :
  KindOf st = String ->
  is_int (KindOf targetType) = true ->
  custom prog ce (VString st s) targetType = Declined ->
  match strconv.ParseInt s (SizeBits (KindOf targetType)) with
  | inl i =>
      Convert prog ce (S fuel) (VString st s) targetType = Ok (VInt targetType i)
      /\ in_intN (SizeBits (KindOf targetType)) i
  | inr e => Convert prog ce (S fuel) (VString st s) targetType = Err (ErrNum e)
  end.
Proof.
  intros Hs Ht Hc.
  assert (Hne : rtype_eqb st targetType = false).
  { apply rtype_eqb_neq. intros ->. rewrite Hs in Ht. discriminate. }
  assert (Hb := SizeBits_positive targetType (or_introl Ht)).
  assert (E : Convert prog ce (S fuel) (VString st s) targetType
              = parsed prog (strconv.ParseInt s (SizeBits (KindOf targetType)))
                       (VInt (Basic Tint64)) targetType).
  { rewrite Convert_S, Hc. cbn [TypeOf type_eqb]. rewrite Hne.
    unfold builtin, to_string, from_string. rewrite Hs.
    destruct (KindOf targetType); try discriminate Ht; reflexivity. }
  rewrite E. unfold parsed.
  destruct (strconv.ParseInt s (SizeBits (KindOf targetType))) as [i|e] eqn:Hp;
    [|reflexivity].
  apply ParseInt_in_range in Hp; [|lia].
  split; [|exact Hp]. apply kind2Exact_int; assumption.
Qed.

Lemma Convert_string_to_int_witness :
  Convert test.plain New 1 (VString test.string_ "128") test.int8
  = Err (ErrNum (strconv.mkNumError "ParseInt" "128" strconv.ErrRange)).
Proof.
  exact (Convert_string_to_int test.plain New 0 test.string_ test.int8 "128"
           eq_refl eq_refl eq_refl).
Defined.

(** A string converts to an unsigned integer type as [strconv.ParseUint]
    reads it for the width of the target: the result is that very number,
    which fits the target, and any other text (a sign included) gives the
    error of [ParseUint] itself. *)
Theorem Convert_string_to_uint (prog : Program) (ce : ConverterEngine) (fuel : nat)
  (st targetType : rtype) (s : string) :
  KindOf st = String ->
  is_uint (KindOf targetType) = true -> KindOf targetType <> Uintptr ->
  custom prog ce (VString st s) targetType = Declined ->
  match strconv.ParseUint s (SizeBits (KindOf targetType)) with
  | inl u =>
      Convert prog ce (S fuel) (VString st s) targetType = Ok (VUint targetType u)
      /\ in_uintN (SizeBits (KindOf targetType)) u
  | inr e => Convert prog ce (S fuel) (VString st s) targetType = Err (ErrNum e)
  end.
Proof.
  intros Hs Ht Hp' Hc.
  assert (Hne : rtype_eqb st targetType = false).
  { apply rtype_eqb_neq. intros ->. rewrite Hs in Ht. discriminate. }
  assert (Hb := SizeBits_positive targetType (or_intror Ht)).
  assert (E : Convert prog ce (S fuel) (VString st s) targetType
              = parsed prog (strconv.ParseUint s (SizeBits (KindOf targetType)))
                       (VUint (Basic Tuint64)) targetType).
  { rewrite Convert_S, Hc. cbn [TypeOf type_eqb]. rewrite Hne.
    unfold builtin, to_string, from_string. rewrite Hs.
    destruct (KindOf targetType); try discriminate Ht;
      try (contradiction Hp'; reflexivity); reflexivity. }
  rewrite E. unfold parsed.
  destruct (strconv.ParseUint s (SizeBits (KindOf targetType))) as [u|e] eqn:Hp;
    [|reflexivity].
  apply ParseUint_in_range in Hp; [|lia].
  split; [|exact Hp]. apply kind2Exact_uint; assumption.
Qed.

Lemma Convert_string_to_uint_witness :
  Convert test.plain New 1 (VString test.string_ "-1") test.uint
  = Err (ErrNum (strconv.mkNumError "ParseUint" "-1" strconv.ErrSyntax)).
Proof.
  assert (Hp : KindOf test.uint <> Uintptr) by discriminate.
  exact (Convert_string_to_uint test.plain New 0 test.string_ test.uint "-1"
           eq_refl eq_refl Hp eq_refl).
Defined.

(** ** The reflection-based conversion between numbers *)

Section ByKind.

Variable prog : Program.
Variable ce : ConverterEngine.

(** For a source and a target that are neither strings, nor two slices or
    two maps, and with every custom converter declining, [Convert] comes
    down to [convertOp]: the conversion it picks, or [ErrIncompatibleType]
    when there is none. *)
Lemma Convert_by_convertOp (fuel : nat) (source : value) (st t : rtype) :
  TypeOf source = Some st -> st <> t ->
  custom prog ce source t = Declined ->
  Kind_eqb (KindOf t) String = false ->
  Kind_eqb (KindOf st) String = false ->
  Kind_eqb (KindOf st) Slice = false ->
  Kind_eqb (KindOf st) Map = false ->
  Convert prog ce (S fuel) source t =
  match convertOp (methodSet prog) t st with
  | Some op => match apply_cvt op source t with Some v => Ok v | None => Panic end
  | None => Err ErrIncompatibleType
  end.
Proof.
  intros Hst Hne Hc Ht Hs Hsl Hmp.
  rewrite Convert_S, Hc, Hst. simpl. apply rtype_eqb_neq in Hne. rewrite Hne.
  unfold builtin, to_string, from_string, ConvertibleTo, kind2Exact, Value_Convert.
  rewrite Hst, Hsl, Hmp. simpl.
  replace (match KindOf t with String => _ | _ => None end) with (@None outcome)
    by (destruct (KindOf t); try discriminate Ht; reflexivity).
  replace (match KindOf st with String => _ | _ => None end) with (@None outcome)
    by (destruct (KindOf st); try discriminate Hs; reflexivity).
  destruct (convertOp (methodSet prog) t st); reflexivity.
Qed.

Lemma intN_uintN_64_wrap (w i : Z) : 0 < w <= 64 -> intN w (uintN 64 i) = intN w i.
Proof.
  intros Hw. unfold intN, uintN. f_equal.
  assert (Hdiv : (2 ^ w | 2 ^ 64)).
  { exists (2 ^ (64 - w)). rewrite <- Z.pow_add_r by lia. f_equal. lia. }
  rewrite <- (Z.mod_mod_divide (i mod 2 ^ 64 + 2 ^ (w - 1)) (2 ^ 64) (2 ^ w) Hdiv).
  rewrite Zplus_mod_idemp_l.
  apply (Z.mod_mod_divide (i + 2 ^ (w - 1)) (2 ^ 64) (2 ^ w) Hdiv).
Qed.

Lemma intN_in_range (w i : Z) : 0 < w -> in_intN w i -> intN w i = i.
Proof.
  intros Hw [Hlo Hhi]. unfold intN.
  assert (Hpow : 2 ^ w = 2 * 2 ^ (w - 1)).
  { rewrite <- Z.pow_succ_r by lia. f_equal. lia. }
  rewrite Z.mod_small by lia. lia.
Qed.

Lemma not_string_of_number (k : Kind) :
  is_int k || is_uint k || is_float k = true ->
  Kind_eqb k String = false /\ Kind_eqb k Slice = false /\ Kind_eqb k Map = false.
Proof. destruct k; simpl; intros H; try discriminate H; auto. Qed.

End ByKind.

(** Between two different signed integer types (sized types, aliases), with
    every custom converter declining, [Convert] keeps the low bits of the
    source for the width of the target, read as two's complement; a source
    that fits the target is therefore converted to the same number, so that
    widening never changes the value. *)
Theorem Convert_int_to_int (prog : Program) (ce : ConverterEngine) (fuel : nat)
  (st targetType : rtype) (i : Z) :
  is_int (KindOf st) = true -> is_int (KindOf targetType) = true ->
  st <> targetType ->
  custom prog ce (VInt st i) targetType = Declined ->
  Convert prog ce (S fuel) (VInt st i) targetType
  = Ok (VInt targetType (intN (SizeBits (KindOf targetType)) i))
  /\ (in_intN (SizeBits (KindOf targetType)) i ->
      Convert prog ce (S fuel) (VInt st i) targetType = Ok (VInt targetType i)).
Proof.
  intros Hs Ht Hne Hc.
  destruct (not_string_of_number (KindOf st)) as [Hs1 [Hs2 Hs3]];
    [rewrite Hs; reflexivity|].
  destruct (not_string_of_number (KindOf targetType)) as [Ht1 _];
    [rewrite Ht; reflexivity|].
  assert (Hb := SizeBits_positive targetType (or_introl Ht)).
  assert (E : Convert prog ce (S fuel) (VInt st i) targetType
              = Ok (VInt targetType (intN (SizeBits (KindOf targetType)) i))).
  { rewrite (Convert_by_convertOp prog ce fuel (VInt st i) st targetType)
      by (assumption || reflexivity).
    unfold convertOp, convertOp_kind. rewrite Hs, Ht. simpl.
    unfold makeInt. rewrite Ht, intN_uintN_64_wrap by exact Hb. reflexivity. }
  split; [exact E|].
  intros Hi. rewrite E, intN_in_range by (lia || exact Hi). reflexivity.
Qed.

Lemma Convert_int_to_int_witness :
  Convert test.plain New 1 (VInt test.int16 300) test.int8 = Ok (VInt test.int8 44).
Proof.
  assert (Hne : test.int16 <> test.int8) by discriminate.
  exact (proj1 (Convert_int_to_int test.plain New 0 test.int16 test.int8 300
                  eq_refl eq_refl Hne eq_refl)).
Defined.

(** A float converts to a signed integer type, with every custom converter
    declining, by truncation toward zero: when the truncated value fits the
    target, it is the result. *)
Theorem Convert_float_to_int (prog : Program) (ce : ConverterEngine) (fuel : nat)
  (st targetType : rtype) (f : spec_float) (z : Z) :
  is_float (KindOf st) = true -> is_int (KindOf targetType) = true ->
  custom prog ce (VFloat st f) targetType = Declined ->
  float.trunc f = Some z ->
  in_intN (SizeBits (KindOf targetType)) z ->
  Convert prog ce (S fuel) (VFloat st f) targetType = Ok (VInt targetType z).
Proof.
  intros Hs Ht Hc Hz Hi.
  assert (Hne : st <> targetType).
  { intros ->. destruct (KindOf targetType); discriminate. }
  destruct (not_string_of_number (KindOf st)) as [Hs1 [Hs2 Hs3]];
    [rewrite Hs; apply orb_true_r|].
  destruct (not_string_of_number (KindOf targetType)) as [Ht1 _];
    [rewrite Ht; reflexivity|].
  assert (Hb := SizeBits_positive targetType (or_introl Ht)).
  rewrite (Convert_by_convertOp prog ce fuel (VFloat st f) st targetType)
    by (assumption || reflexivity).
  assert (Hop : convertOp (methodSet prog) targetType st = Some cvtFloatInt).
  { unfold convertOp, convertOp_kind. rewrite Hs, Ht.
    replace (is_int (KindOf st)) with false
      by (destruct (KindOf st); try discriminate; reflexivity).
    replace (is_uint (KindOf st)) with false
      by (destruct (KindOf st); try discriminate; reflexivity).
    reflexivity. }
  rewrite Hop. simpl. unfold makeInt. rewrite Ht.
  assert (H64 : - 2 ^ 63 <= z < 2 ^ 63).
  { destruct Hi as [Hlo Hhi].
    assert (2 ^ (SizeBits (KindOf targetType) - 1) <= 2 ^ 63)
      by (apply Z.pow_le_mono_r; lia).
    lia. }
  assert (Ht64 : float.to_int64 f = z).
  { unfold float.to_int64. rewrite Hz.
    replace (- 2 ^ 63 <=? z) with true by (symmetry; apply Z.leb_le; lia).
    replace (z <? 2 ^ 63) with true by (symmetry; apply Z.ltb_lt; lia).
    reflexivity. }
  rewrite Ht64, intN_uintN_64_wrap, intN_in_range by (lia || exact Hi). reflexivity.
Qed.

Lemma Convert_float_to_int_witness :
  Convert test.plain New 1 (VFloat test.float64 (test.f64 true 55 10)) test.int
  = Ok (VInt test.int (-5)).
Proof.
  assert (Hi : in_intN (SizeBits (KindOf test.int)) (-5))
    by (split; [vm_compute; discriminate | vm_compute; reflexivity]).
  exact (Convert_float_to_int test.plain New 0 test.float64 test.int
           (test.f64 true 55 10) (-5) eq_refl eq_refl eq_refl eq_refl Hi).
Defined.

(** ** Booleans and numbers do not convert into each other *)

Lemma convertOp_Bool_number (ms : rtype -> list string) (dst src : rtype) :
  (Kind_eqb (KindOf src) Bool && is_number (KindOf dst))
  || (is_number (KindOf src) && Kind_eqb (KindOf dst) Bool) = true ->
  convertOp ms dst src = None.
Proof.
  intros H. unfold convertOp.
  assert (Hk : convertOp_kind dst src = None).
  { unfold convertOp_kind, is_number in *.
    destruct (KindOf src), (KindOf dst); simpl in H |- *; try discriminate H;
      reflexivity. }
  assert (Hu : Kind_eqb (KindOf dst) (KindOf src) = false).
  { unfold is_number in H.
    destruct (KindOf src), (KindOf dst); simpl in H |- *; try discriminate H;
      reflexivity. }
  assert (Hne : rtype_eqb dst src = false).
  { apply rtype_eqb_neq. intros ->. rewrite Kind_eqb_refl in Hu. discriminate Hu. }
  assert (Hp : match dst, src with
               | PtrTo d, PtrTo s => haveIdenticalUnderlyingType d s
               | _, _ => false
               end = false).
  { destruct dst; try reflexivity. unfold is_number in H.
    destruct (KindOf src); discriminate H. }
  assert (Hi : implements ms dst src = false).
  { unfold implements. unfold KindOf, is_number in H.
    destruct (underlying dst); try reflexivity.
    destruct (match underlying src with
              | Basic b => basic_kind b
              | Named _ _ => Invalid
              | SliceOf _ => Slice
              | MapOf _ _ => Map
              | PtrTo _ => Ptr
              | StructOf _ => Struct
              | InterfaceOf _ => Interface
              end); discriminate H. }
  assert (Hid : haveIdenticalUnderlyingType dst src = false).
  { unfold haveIdenticalUnderlyingType. rewrite Hne, Hu. reflexivity. }
  rewrite Hk, Hid, Hp, Hi. reflexivity.
Qed.

(** With every custom converter declining, a boolean converts to no integer
    or float type and a number to no boolean type: [Convert] returns
    [ErrIncompatibleType]. *)
Theorem Convert_bool_number_incompatible (prog : Program) (ce : ConverterEngine)
  (fuel : nat) (source : value) (st targetType : rtype) :
  TypeOf source = Some st ->
  (Kind_eqb (KindOf st) Bool && is_number (KindOf targetType))
  || (is_number (KindOf st) && Kind_eqb (KindOf targetType) Bool) = true ->
  custom prog ce source targetType = Declined ->
  Convert prog ce (S fuel) source targetType = Err ErrIncompatibleType.
Proof.
  intros Hst Hk Hc.
  assert (Hkinds : Kind_eqb (KindOf targetType) String = false
                   /\ Kind_eqb (KindOf st) String = false
                   /\ Kind_eqb (KindOf st) Slice = false
                   /\ Kind_eqb (KindOf st) Map = false
                   /\ Kind_eqb (KindOf targetType) (KindOf st) = false).
  { unfold is_number in Hk.
    destruct (KindOf st), (KindOf targetType); simpl in Hk |- *; try discriminate Hk;
      repeat split; reflexivity. }
  destruct Hkinds as [H1 [H2 [H3 [H4 H5]]]].
  assert (Hne : st <> targetType).
  { intros ->. rewrite Kind_eqb_refl in H5. discriminate H5. }
  rewrite (Convert_by_convertOp prog ce fuel source st targetType) by assumption.
  rewrite convertOp_Bool_number by exact Hk. reflexivity.
Qed.

Lemma Convert_bool_number_incompatible_witness :
  Convert test.plain New 1 (VBool test.bool_ true) test.int = Err ErrIncompatibleType.
Proof.
  exact (Convert_bool_number_incompatible test.plain New 0 (VBool test.bool_ true)
           test.bool_ test.int eq_refl eq_refl eq_refl).
Defined.

(** ** Strings, string types and bytes *)

Section Strings.

Variable prog : Program.
Variable ce : ConverterEngine.

Lemma convertOp_string_types (st t : rtype) :
  KindOf st = String -> KindOf t = String ->
  convertOp (methodSet prog) t st = Some cvtDirect.
Proof.
  intros Hs Ht. unfold convertOp, convertOp_kind. rewrite Hs, Ht. simpl.
  assert (Hid : haveIdenticalUnderlyingType t st = true).
  { unfold haveIdenticalUnderlyingType. rewrite Hs, Ht.
    rewrite (KindOf_basic t Tstring Ht), (KindOf_basic st Tstring Hs). simpl.
    apply orb_true_r. }
  rewrite Hid. reflexivity.
Qed.

Lemma uints_of_map_VUint (t : rtype) (bs : list Z) :
  uints_of (map (VUint t) bs) = Some bs.
Proof. induction bs as [|b bs IH]; simpl; [reflexivity | rewrite IH; reflexivity]. Qed.

Lemma string_of_bytes_of_string (s : string) :
  utf8.string_of_bytes (utf8.bytes_of_string s) = s.
Proof.
  unfold utf8.string_of_bytes, utf8.bytes_of_string.
  induction s as [|c s IH]; simpl; [reflexivity|].
  rewrite IH. unfold utf8.char_of, utf8.byte_of.
  rewrite N2Z.id, ascii_N_embedding. reflexivity.
Qed.

End Strings.

(** Between two different types of string kind ([string] and its aliases),
    for a source without a [String] method and with every custom converter
    declining, [Convert] keeps the text and changes the type only. *)
Theorem Convert_between_string_types (prog : Program) (ce : ConverterEngine)
  (fuel : nat) (st targetType : rtype) (s : string) :
  KindOf st = String -> KindOf targetType = String -> st <> targetType ->
  asserts prog (VString st s) Stringer = false ->
  custom prog ce (VString st s) targetType = Declined ->
  Convert prog ce (S fuel) (VString st s) targetType = Ok (VString targetType s).
Proof.
  intros Hs Ht Hne Hstr Hc. rewrite Convert_S, Hc. cbn [TypeOf type_eqb].
  apply rtype_eqb_neq in Hne. rewrite Hne.
  unfold builtin, to_string, from_string, ConvertibleTo, kind2Exact, Value_Convert.
  rewrite Ht, Hstr, Hs. simpl.
  rewrite (convertOp_string_types prog st targetType Hs Ht). reflexivity.
Qed.

Lemma Convert_between_string_types_witness :
  Convert test.plain New 1 (VString test.string_ "hola") test.StringAlias
  = Ok (VString test.StringAlias "hola").
Proof.
  assert (Hne : test.string_ <> test.StringAlias) by discriminate.
  exact (Convert_between_string_types test.plain New 0 test.string_ test.StringAlias
           "hola" eq_refl eq_refl Hne eq_refl eq_refl).
Defined.



(** A string converts to a slice of bytes holding its bytes, and that slice
    converts back to the string: the round trip through [[]byte] is exact
    (no custom converter taking either call, no [String] method on the
    slice type). *)
Theorem string_bytes_round_trip (prog : Program) (ce : ConverterEngine)
  (fuel fuel' : nat) (st bt : rtype) (s : string) :
  let bytes := VSlice bt (map (VUint (Basic Tuint8)) (utf8.bytes_of_string s)) in
  KindOf st = String -> KindOf bt = Slice -> Elem bt = Some (Basic Tuint8) ->
  custom prog ce (VString st s) bt = Declined ->
  custom prog ce bytes st = Declined ->
  asserts prog bytes Stringer = false ->
  Convert prog ce (S fuel) (VString st s) bt = Ok bytes
  /\ Convert prog ce (S fuel') bytes st = Ok (VString st s).
Proof.
  intros bytes Hs Hb He Hc Hc' Hstr.
  assert (Hne : rtype_eqb st bt = false).
  { apply rtype_eqb_neq. intros ->. rewrite Hs in Hb. discriminate Hb. }
  assert (Hne' : rtype_eqb bt st = false) by (rewrite rtype_eqb_sym; exact Hne).
  split.
  - rewrite Convert_S, Hc. cbn [TypeOf type_eqb]. rewrite Hne.
    unfold builtin, to_string, from_string, ConvertibleTo, kind2Exact, Value_Convert,
      convertOp, convertOp_kind.
    cbn [TypeOf]. rewrite Hb, Hs.
    cbn [Kind_eqb is_int is_uint is_float andb orb]. rewrite He.
    cbn [Kind_eqb KindOf underlying basic_kind no_pkgPath andb apply_cvt].
    reflexivity.
  - rewrite Convert_S, Hc'. subst bytes. cbn [TypeOf type_eqb]. rewrite Hne'.
    unfold builtin, to_string, from_string, ConvertibleTo, kind2Exact, Value_Convert,
      convertOp, convertOp_kind.
    cbn [TypeOf]. rewrite Hs, Hstr, Hb.
    cbn [Kind_eqb is_int is_uint is_float andb orb]. rewrite He.
    cbn [Kind_eqb KindOf underlying basic_kind no_pkgPath andb apply_cvt].
    rewrite uints_of_map_VUint. cbn [option_map].
    rewrite string_of_bytes_of_string. reflexivity.
Qed.

Lemma string_bytes_round_trip_witness :
  Convert test.plain New 1 (VString test.string_ "ABC") (SliceOf test.uint8)
  = Ok (VSlice (SliceOf test.uint8) (map (VUint test.uint8) [65; 66; 67]))
  /\ Convert test.plain New 1
             (VSlice (SliceOf test.uint8) (map (VUint test.uint8) [65; 66; 67]))
             test.string_
     = Ok (VString test.string_ "ABC").
Proof.
  exact (string_bytes_round_trip test.plain New 0 0 test.string_ (SliceOf test.uint8)
           "ABC" eq_refl eq_refl eq_refl eq_refl eq_refl eq_refl).
Defined.

(** ** Empty slices and maps *)

(** An empty slice converts to the empty slice of any other slice type, and
    an empty map to the empty map of any other map type, whatever the
    element and key types are (no element is there to fail), when no custom
    converter takes the call. *)
Theorem empty_containers_convert (prog : Program) (ce : ConverterEngine) (fuel : nat)
  (st targetType : rtype) :
  st <> targetType ->
  (KindOf st = Slice -> KindOf targetType = Slice ->
   custom prog ce (VSlice st []) targetType = Declined ->
   Convert prog ce (S fuel) (VSlice st []) targetType = Ok (VSlice targetType []))
  /\ (KindOf st = Map -> KindOf targetType = Map ->
      custom prog ce (VMap st []) targetType = Declined ->
      Convert prog ce (S fuel) (VMap st []) targetType = Ok (VMap targetType [])).
Proof.
  intros Hne. split.
  - intros Hs Ht Hc. destruct (Kind_Slice_Elem targetType Ht) as [et He].
    rewrite (Convert_slice_step prog ce fuel st targetType et) by assumption.
    reflexivity.
  - intros Hs Ht Hc. destruct (Kind_Map_Key_Elem targetType Ht) as [kt [et [Hk He]]].
    rewrite (Convert_map_step prog ce fuel st targetType kt et) by assumption.
    reflexivity.
Qed.

Lemma empty_containers_convert_witness :
  Convert test.plain New 1 (VSlice (SliceOf test.bool_) []) (SliceOf test.int)
  = Ok (VSlice (SliceOf test.int) []).
Proof.
  assert (Hne : SliceOf test.bool_ <> SliceOf test.int) by discriminate.
  exact (proj1 (empty_containers_convert test.plain New 0 (SliceOf test.bool_)
                  (SliceOf test.int) Hne) eq_refl eq_refl eq_refl).
Defined.

(** ** The errors of an engine without converters *)

Section PlainErrors.

Variable prog : Program.

Lemma convertSlice_error (conv : value -> rtype -> outcome) (source : value)
  (t : rtype) (e : error) :
  convertSlice prog conv source t = Err e ->
  exists x ty, component x source /\ conv x ty = Err e.
Proof.
  unfold convertSlice. destruct source; try discriminate.
  destruct (KindOf t); try discriminate. destruct (Elem t) as [et|]; try discriminate.
  simpl. generalize (@nil value) as T.
  induction elems as [|x l IH]; intros T; simpl; [discriminate|].
  destruct (conv x et) as [item|e'| |] eqn:Hx; try discriminate.
  - destruct (assignableTo (methodSet prog) item et); [|discriminate].
    intros H. destruct (IH _ H) as [y [ty [Hy E]]].
    exists y, ty. split; [right; exact Hy | exact E].
  - intros H. injection H as <-. exists x, et. split; [left; reflexivity | exact Hx].
Qed.

Lemma convertMap_error (conv : value -> rtype -> outcome) (source : value)
  (t : rtype) (e : error) :
  convertMap prog conv source t = Err e ->
  exists x ty, component x source /\ conv x ty = Err e.
Proof.
  unfold convertMap. destruct source; try discriminate.
  destruct (KindOf t); try discriminate. destruct (Key t) as [kt|]; try discriminate.
  destruct (Elem t) as [et|]; try discriminate.
  simpl. generalize (@nil (value * value)) as T.
  induction entries as [|[k v] l IH]; intros T; simpl; [discriminate|].
  destruct (conv v et) as [value|e'| |] eqn:Hv; try discriminate.
  - destruct (conv k kt) as [key|e'| |] eqn:Hk; try discriminate.
    + destruct (assignableTo (methodSet prog) key kt
                && assignableTo (methodSet prog) value et && hashable key);
        [|discriminate].
      intros H. destruct (IH _ H) as [y [ty [[k' [v' [Hin Hy]]] E]]].
      exists y, ty. split; [|exact E]. exists k', v'. split; [right; exact Hin | exact Hy].
    + intros H. injection H as <-. exists k, kt. split; [|exact Hk]. exists k, v.
      split; [left; reflexivity | left; reflexivity].
  - intros H. injection H as <-. exists v, et. split; [|exact Hv]. exists k, v.
    split; [left; reflexivity | right; reflexivity].
Qed.

Lemma Convert_New_errors (fuel : nat) :
  forall source t e,
    no_ConverterTo prog source = true ->
    Convert prog New fuel source t = Err e ->
    e = ErrIncompatibleType \/ exists ne, e = ErrNum ne.
Proof.
  induction fuel as [|fuel IH]; intros source t e Hn H; [discriminate H|].
  rewrite Convert_S in H.
  destruct (type_eqb (TypeOf source) (Some t)); [discriminate H|].
  rewrite custom_New_Declined in H by (apply no_ConverterTo_asserts; exact Hn).
  destruct (builtin_cases prog (Convert prog New fuel) source (TypeOf source) t)
    as [E|[[ne E]|[[w E]|[E|[E|E]]]]]; rewrite E in H; try discriminate H.
  - injection H as <-. right. eauto.
  - destruct (kind2Exact_cases prog w t) as [[v [E' _]]|E']; rewrite E' in H;
      discriminate H.
  - apply convertSlice_error in H. destruct H as [x [ty [Hx Hxe]]].
    apply (IH x ty e); [|exact Hxe]. eapply component_no_ConverterTo; eauto.
  - apply convertMap_error in H. destruct H as [x [ty [Hx Hxe]]].
    apply (IH x ty e); [|exact Hxe]. eapply component_no_ConverterTo; eauto.
  - injection H as <-. left. reflexivity.
Qed.

End PlainErrors.

(** On an engine without converters, for a source none of whose nested
    components implements [ConverterTo], the only errors [Convert] returns
    are [ErrIncompatibleType] and the errors of [strconv]. *)
Theorem Convert_errors_without_converters (prog : Program) (fuel : nat)
  (source : value) (targetType : rtype) (e : error) :
  no_ConverterTo prog source = true ->
  Convert prog New fuel source targetType = Err e ->
  e = ErrIncompatibleType \/ exists ne, e = ErrNum ne.
Proof. apply Convert_New_errors. Qed.

Lemma Convert_errors_without_converters_witness :
  ErrNum (strconv.mkNumError "ParseInt" "x" strconv.ErrSyntax) = ErrIncompatibleType
  \/ exists ne, ErrNum (strconv.mkNumError "ParseInt" "x" strconv.ErrSyntax) = ErrNum ne.
Proof.
  exact (Convert_errors_without_converters test.plain 2
           (VSlice (SliceOf test.any) [VString test.string_ "x"]) (SliceOf test.int)
           (ErrNum (strconv.mkNumError "ParseInt" "x" strconv.ErrSyntax))
           eq_refl eq_refl).
Defined.

(** ** Engines built by registration *)







(** ** The order of registration *)

(** A source converter registered later for a type is consulted after the
    ones registered before it for that type, and before every other
    strategy: when one of the earlier ones returns a value or fails, the new
    one plays no part; when they all decline, a value it returns is what
    [Convert] goes on with, and an error it returns (other than the
    sentinel) is what [Convert] returns. *)
Theorem later_source_converter_order (prog : Program) (ce : ConverterEngine)
  (key : rtype) (f : ConverterFunc) (source : value) (targetType : rtype) (fuel : nat) :
  TypeOf source = Some key -> key <> targetType ->
  let earlier := try_converters (registry_get (sourceConverters ce) (Some key))
                                source targetType in
  let ce' := AddSourceConverter ce key f in
  (earlier <> Declined ->
   custom prog ce' source targetType = custom prog ce source targetType)
  /\ (earlier = Declined ->
      (forall r, f source targetType = (r, None) ->
                 Convert prog ce' (S fuel) source targetType
                 = Convert prog ce' fuel r targetType)
      /\ (forall x e, f source targetType = (x, Some e) ->
                      e <> ErrNoConversionAvailable ->
                      Convert prog ce' (S fuel) source targetType = Err e)).
Proof.
  intros Hst Hne earlier ce'.
  assert (Hid : type_eqb (TypeOf source) (Some targetType) = false).
  { rewrite Hst. simpl. apply rtype_eqb_neq. exact Hne. }
  assert (Hsrc : try_converters (registry_get (sourceConverters ce') (TypeOf source))
                                source targetType
                 = match earlier with
                   | Declined => try_converters [f] source targetType
                   | a => a
                   end).
  { rewrite Hst. unfold ce'. simpl.
    rewrite registry_get_append, rtype_eqb_refl, try_converters_app.
    unfold earlier.
    destruct (try_converters (registry_get (sourceConverters ce) (Some key))
                             source targetType); reflexivity. }
  split.
  - intros Hearlier. unfold custom. rewrite Hsrc. fold earlier.
    unfold earlier in *. rewrite Hst.
    destruct (try_converters (registry_get (sourceConverters ce) (Some key))
                             source targetType); try reflexivity.
    contradiction Hearlier. reflexivity.
  - intros Hearlier. rewrite Hearlier in Hsrc. split.
    + intros r Hf. simpl. rewrite Hid.
      simpl in Hsrc. rewrite Hf in Hsrc. unfold ce' in Hsrc. simpl in Hsrc.
      rewrite Hsrc. reflexivity.
    + intros x e Hf He. simpl. rewrite Hid.
      simpl in Hsrc. rewrite Hf in Hsrc. unfold ce' in Hsrc. simpl in Hsrc.
      rewrite Hsrc. destruct e; try reflexivity. contradiction He. reflexivity.
Qed.

Lemma later_source_converter_order_witness :
  Convert test.plain
          (AddSourceConverter test.Default test.FloatAlias
             (fun _ _ => (VString test.string_ "later", None)))
          2 (VFloat test.FloatAlias (test.f64 false 27 10)) test.string_
  = Convert test.plain
            (AddSourceConverter test.Default test.FloatAlias
               (fun _ _ => (VString test.string_ "later", None)))
            1 (VString test.string_ "later") test.string_.
Proof.
  assert (Hne : test.FloatAlias <> test.string_) by discriminate.
  exact (proj1 (proj2 (later_source_converter_order test.plain test.Default
                         test.FloatAlias
                         (fun _ _ => (VString test.string_ "later", None))
                         (VFloat test.FloatAlias (test.f64 false 27 10)) test.string_
                         1 eq_refl Hne) eq_refl)
           (VString test.string_ "later") eq_refl).
Defined.

(** ** The empty interface *)

(** Every value that is not nil converts to an empty interface type
    ([interface{}]) as itself, when no custom converter takes the call. *)
Theorem Convert_to_empty_interface (prog : Program) (ce : ConverterEngine)
  (fuel : nat) (source : value) (st targetType : rtype) :
  TypeOf source = Some st -> KindOf st <> Interface ->
  underlying targetType = InterfaceOf [] ->
  custom prog ce source targetType = Declined ->
  Convert prog ce (S fuel) source targetType = Ok source.
Proof.
  intros Hst Hks Hu Hc.
  assert (Hkt : KindOf targetType = Interface) by (unfold KindOf; rewrite Hu; reflexivity).
  rewrite Convert_S, Hc.
  destruct (type_eqb (TypeOf source) (Some targetType)) eqn:Hid; [reflexivity|].
  unfold builtin, to_string, from_string, convertSlice, convertMap.
  rewrite Hst, Hkt.
  replace (match KindOf st with String => None | _ => None end) with (@None outcome)
    by (destruct (KindOf st); reflexivity).
  rewrite !andb_false_r.
  assert (Hop : convertOp (methodSet prog) targetType st = Some cvtT2I).
  { unfold convertOp.
    assert (Hk : convertOp_kind targetType st = None).
    { unfold convertOp_kind. rewrite Hkt.
      destruct (KindOf st); try reflexivity. }
    assert (Hident : haveIdenticalUnderlyingType targetType st = false).
    { unfold haveIdenticalUnderlyingType.
      rewrite Hst in Hid. simpl in Hid. rewrite rtype_eqb_sym, Hid, Hkt.
      destruct (KindOf st) eqn:E; try reflexivity. contradiction Hks. reflexivity. }
    assert (Hp : match targetType, st with
                 | PtrTo d, PtrTo s => haveIdenticalUnderlyingType d s
                 | _, _ => false
                 end = false).
    { destruct targetType; try reflexivity. discriminate Hu. }
    assert (Hi : implements (methodSet prog) targetType st = true).
    { unfold implements. rewrite Hu. reflexivity. }
    rewrite Hk, Hident, Hp, Hi. reflexivity. }
  unfold ConvertibleTo, kind2Exact, Value_Convert. rewrite Hst, Hop.
  destruct source; try discriminate Hst; reflexivity.
Qed.

Lemma Convert_to_empty_interface_witness :
  Convert test.plain New 1 (VString test.string_ "x") test.any
  = Ok (VString test.string_ "x").
Proof.
  assert (Hk : KindOf test.string_ <> Interface) by discriminate.
  exact (Convert_to_empty_interface test.plain New 0 (VString test.string_ "x")
           test.string_ test.any eq_refl Hk eq_refl eq_refl).
Defined.
